(** * Cookie consent widget and configuration service: model and properties

    A shallow embedding of the parts of the repository that decide the
    documented behaviour of the consent widget ([src/CookiePlugin.ts],
    [src/CookiePluginWithBackend.ts], [src/utils.ts], [src/blocker.ts]) and of
    the configuration service ([backend/middleware], [backend/routes],
    [backend/src/controllers], [backend/src/utils]). *)

From Stdlib Require Import ZArith Floats Ascii String.
From stdpp Require Import gmap strings list fin_maps pretty.

Local Open Scope Z_scope.

(** ** JavaScript values

    The widget and the service pass dynamically typed data around (parsed
    JSON, configuration objects, request bodies).  Numbers are IEEE doubles.
    An object is the list of its own enumerable data properties in insertion
    order; reading a property takes the first entry under the key.  The
    prototype chain (and with it the [__proto__] accessor) is outside the
    model. *)
Module JS.

#[local] Unset Elimination Schemes.
Inductive value :=
| VUndefined
| VNull
| VBool (b : bool)
| VNum (x : float)
| VStr (s : string)
| VArr (items : list value)
| VObj (props : list (string * value)).
#[local] Set Elimination Schemes.

Inductive type_tag := TUndefined | TObject | TBoolean | TNumber | TString.

(** [typeof v] *)
Definition typeof (v : value) : type_tag :=
  match v with
  | VUndefined => TUndefined
  | VNull => TObject
  | VBool _ => TBoolean
  | VNum _ => TNumber
  | VStr _ => TString
  | VArr _ => TObject
  | VObj _ => TObject
  end.

Definition type_tag_eqb (a b : type_tag) : bool :=
  match a, b with
  | TUndefined, TUndefined | TObject, TObject | TBoolean, TBoolean
  | TNumber, TNumber | TString, TString => true
  | _, _ => false
  end.

(** Truthiness of a value in a condition. *)
Definition truthy (v : value) : bool :=
  match v with
  | VUndefined | VNull => false
  | VBool b => b
  | VNum x => negb (PrimFloat.is_nan x) && negb (PrimFloat.is_zero x)
  | VStr s => negb (String.eqb s "")
  | VArr _ | VObj _ => true
  end.

(** [Array.isArray v] *)
Definition isArray (v : value) : bool :=
  match v with VArr _ => true | _ => false end.

(** [v !== undefined] *)
Definition is_defined (v : value) : bool :=
  match v with VUndefined => false | _ => true end.

Fixpoint assoc (k : string) (l : list (string * value)) : option value :=
  match l with
  | [] => None
  | (k', v) :: l' => if String.eqb k k' then Some v else assoc k l'
  end.

(** Assignment [o[k] = v] on the property list: an existing key keeps its
    position, a new key goes last. *)
Fixpoint assign (k : string) (v : value) (l : list (string * value))
  : list (string * value) :=
  match l with
  | [] => [(k, v)]
  | (k', v') :: l' =>
      if String.eqb k k' then (k, v) :: l' else (k', v') :: assign k v l'
  end.

Fixpoint indexed_from (i : nat) (l : list value) : list (string * value) :=
  match l with
  | [] => []
  | v :: l' => (pretty i, v) :: indexed_from (S i) l'
  end.

Fixpoint chars (s : string) : list value :=
  match s with
  | EmptyString => []
  | String c s' => VStr (String c EmptyString) :: chars s'
  end.

(** The own enumerable properties of a value: what [{...v}] copies and
    what [for (const key in v)] visits.  Arrays and strings expose their
    indices; the other primitives expose nothing. *)
Definition own_props (v : value) : list (string * value) :=
  match v with
  | VObj props => props
  | VArr items => indexed_from 0 items
  | VStr s => indexed_from 0 (chars s)
  | _ => []
  end.

(** Property read [v[k]] on a value that is not null or undefined. *)
Definition get (v : value) (k : string) : value :=
  match assoc k (own_props v) with
  | Some x => x
  | None => VUndefined
  end.

(** [{...v}] *)
Definition spread (v : value) : value := VObj (own_props v).

(** [o[k] = x] on an object. *)
Definition set (o : value) (k : string) (x : value) : value :=
  match o with
  | VObj props => VObj (assign k x props)
  | _ => o
  end.

(** [a || b] *)
Definition or_else (a b : value) : value := if truthy a then a else b.

(** The double of a non-negative integer below 2^53. *)
Definition float_of_Z (z : Z) : float := PrimFloat.of_uint63 (Uint63.of_Z z).

Definition num (z : Z) : value := VNum (float_of_Z z).

End JS.

(** ** [src/utils.ts] *)
Module Utils.
Import JS.

(** The body of the loop in [deepMerge] for one key of the source, given the
    value [nested] of the recursive call on that key. *)
Definition merge_key (key : string) (sv nested : value)
    (result : list (string * value)) : list (string * value) :=
  if truthy sv && type_tag_eqb (typeof sv) TObject && negb (isArray sv)
  then assign key nested result
  else if is_defined sv then assign key sv result
  else result.

(** [for (const key in source) body] over the properties of the source. *)
Fixpoint for_in {A} (body : string → value → A → A)
    (entries : list (string * value)) (acc : A) : A :=
  match entries with
  | [] => acc
  | (key, sv) :: rest => for_in body rest (body key sv acc)
  end.

Fixpoint for_items {A} (body : string → value → A → A)
    (i : nat) (items : list value) (acc : A) : A :=
  match items with
  | [] => acc
  | sv :: rest => for_items body (S i) rest (body (pretty i) sv acc)
  end.

(** [deepMerge(target, source)] *)
Fixpoint deepMerge (target source : value) : value :=
  let body key sv result :=
    merge_key key sv (deepMerge (or_else (get target key) (VObj [])) sv) result in
  VObj
    match source with
    | VObj props => for_in body props (own_props target)
    | VArr items => for_items body 0 items (own_props target)
    | VStr s =>
        for_in (fun key sv result => merge_key key sv VUndefined result)
               (indexed_from 0 (chars s)) (own_props target)
    | _ => own_props target
    end.

End Utils.

(** ** [src/CookiePlugin.ts]

    The plugin is its configuration, the consent record it holds, what of
    its banner and modal is in the page, the cookie jar of the page, and
    the calls it has made to the configured callbacks.  Every handler runs
    to completion; the browser calls are taken not to throw. *)
Module CookiePlugin.
Import JS.

Record CookieCategory := {
  name : string;
  description : string;
  required : bool;
  cookies : list string
}.

(** The fields of [CookiePluginConfig] the consent life cycle reads.
    [onAccept], [onReject] and [onSave] record whether the callback is set. *)
Record CookiePluginConfig := {
  enabled : bool;
  autoShow : bool;
  showOnScroll : bool;
  categories : list (string * CookieCategory);
  texts : list (string * string);
  cookieSettings_name : string;
  version : string;
  onAccept : bool;
  onReject : bool;
  onSave : bool
}.

Definition getDefaultConfig : CookiePluginConfig := {|
  enabled := true;
  autoShow := true;
  showOnScroll := false;
  categories :=
    [ ("essential",
       {| name := "Essential";
          description := "These cookies are necessary for the website to function properly.";
          required := true;
          cookies := ["session"; "csrf"; "language"] |});
      ("analytics",
       {| name := "Analytics";
          description := "These cookies help us understand how visitors interact with our website.";
          required := false;
          cookies := ["_ga"; "_gid"; "_gat"] |});
      ("marketing",
       {| name := "Marketing";
          description := "These cookies are used to deliver personalized advertisements.";
          required := false;
          cookies := ["_fbp"; "fr"] |});
      ("preferences",
       {| name := "Preferences";
          description := "These cookies remember your preferences and settings.";
          required := false;
          cookies := ["theme"; "language"; "timezone"] |}) ];
  texts :=
    [ ("title", "Cookie Consent");
      ("description", "We use cookies to enhance your browsing experience.");
      ("acceptAll", "Accept All"); ("rejectAll", "Reject All");
      ("customize", "Customize"); ("save", "Save Preferences"); ("close", "Close");
      ("moreInfo", "More Information"); ("cookiePolicy", "Cookie Policy");
      ("privacyPolicy", "Privacy Policy") ];
  cookieSettings_name := "ns-cookie-consent";
  version := "1.0.0";
  onAccept := false;
  onReject := false;
  onSave := false
|}.

(** A checkbox of the customize modal as the DOM holds it: the
    [data-category] attribute, the current [checked] state and the
    [disabled] attribute. *)
Record Checkbox := {
  data_category : option string;
  checked : bool;
  disabled : bool
}.

(** Calls of the configured callbacks, with the record they received. *)
Inductive Callback :=
| OnAccept (consent : value)
| OnReject (consent : value)
| OnSave (consent : value).

Record Plugin := {
  config : CookiePluginConfig;
  consent : option value;
  cookieBar : bool;
  modal : option (list Checkbox);
  scrollListener : bool;
  cookies_jar : gmap string string;
  callbacks : list Callback
}.

Definition with_consent (p : Plugin) (c : option value) (jar : gmap string string) : Plugin :=
  {| config := config p; consent := c; cookieBar := cookieBar p; modal := modal p;
     scrollListener := scrollListener p; cookies_jar := jar; callbacks := callbacks p |}.

Definition with_ui (p : Plugin) (bar : bool) (m : option (list Checkbox)) : Plugin :=
  {| config := config p; consent := consent p; cookieBar := bar; modal := m;
     scrollListener := scrollListener p; cookies_jar := cookies_jar p;
     callbacks := callbacks p |}.

Definition with_callback (p : Plugin) (set : bool) (cb : Callback) : Plugin :=
  {| config := config p; consent := consent p; cookieBar := cookieBar p; modal := modal p;
     scrollListener := scrollListener p; cookies_jar := cookies_jar p;
     callbacks := if set then callbacks p ++ [cb] else callbacks p |}.

(** A text without the characters that mean something to the HTML
    parser: [<], [>], the double quote and [&]. *)
Definition plain (s : string) : bool :=
  forallb (fun c => negb (bool_decide (nat_of_ascii c ∈ [60; 62; 34; 38]%nat)))
          (list_ascii_of_string s).

(** [getModalHTML()] writes the keys, names and descriptions of the
    categories and the texts into its template as they are, without
    escaping.  The template is markup-free when all of them are plain
    (taking all texts, of which the modal shows four). *)
Definition markup_free (cfg : CookiePluginConfig) : bool :=
  forallb (fun '(key, category) =>
             plain key && plain (name category) && plain (description category))
          (categories cfg) &&
  forallb (fun entry => plain entry.2) (texts cfg).

Section Json.

(** [JSON.parse]: [None] when it throws. *)
Variable JSON_parse : string → option value.
(** [JSON.stringify] *)
Variable JSON_stringify : value → string.

(** What [querySelectorAll('input[type="checkbox"]')] finds in the modal
    after [modal.innerHTML = getModalHTML()] when the template is not
    markup-free: a key can then close its attribute and a name, a
    description or a text can bring elements of its own, checkboxes among
    them, so the list is whatever the HTML parser of the browser makes of
    the configuration and the current consent. *)
Variable querySelectorAll_checkboxes : CookiePluginConfig → option value → list Checkbox.

(** [isValidConsent(consent)], as the truth value of the conjunction. *)
Definition isValidConsent (consent : value) : bool :=
  truthy consent &&
  type_tag_eqb (typeof consent) TObject &&
  type_tag_eqb (typeof (get consent "timestamp")) TNumber &&
  type_tag_eqb (typeof (get consent "version")) TString &&
  truthy (get consent "categories") &&
  type_tag_eqb (typeof (get consent "categories")) TObject.

(** [loadConsent()]: [Cookies.get] is the lookup in the jar. *)
Definition loadConsent (cfg : CookiePluginConfig) (jar : gmap string string)
  : option value :=
  match jar !! cookieSettings_name cfg with
  | Some consentCookie =>
      if negb (String.eqb consentCookie "") then
        match JSON_parse consentCookie with
        | Some consent => if isValidConsent consent then Some consent else None
        | None => None
        end
      else None
  | None => None
  end.

Definition hasConsent (p : Plugin) : bool :=
  match consent p with Some _ => true | None => false end.

Definition showCookieBar (p : Plugin) : Plugin := with_ui p true (modal p).

(** [hideCookieBar()] and [hideModal()], taken with their 300 ms removal
    timers elapsed. *)
Definition hideCookieBar (p : Plugin) : Plugin := with_ui p false (modal p).

Definition hideModal (p : Plugin) : Plugin := with_ui p (cookieBar p) None.

(** [init()] *)
Definition init (p : Plugin) : Plugin :=
  if negb (enabled (config p)) then p
  else
    let p1 :=
      if hasConsent p then p
      else if autoShow (config p) then showCookieBar p
      else p in
    {| config := config p1; consent := consent p1; cookieBar := cookieBar p1;
       modal := modal p1;
       scrollListener := showOnScroll (config p1) || scrollListener p1;
       cookies_jar := cookies_jar p1; callbacks := callbacks p1 |}.

(** [new CookiePlugin(config)], with the merged configuration. *)
Definition construct (cfg : CookiePluginConfig) (jar : gmap string string) : Plugin :=
  init {| config := cfg; consent := loadConsent cfg jar; cookieBar := false;
          modal := None; scrollListener := false; cookies_jar := jar;
          callbacks := [] |}.

(** The object literal [{ timestamp, version, categories }]. *)
Definition ConsentData (now : Z) (ver : string) (cats : list (string * value)) : value :=
  VObj [("timestamp", num now); ("version", VStr ver); ("categories", VObj cats)].

(** [saveConsent(consent)]: the assignment to [this.consent], and the
    cookie as the jar holds it once the browser has accepted the write;
    the attributes [Cookies.set] passes (expires, path, domain, secure,
    sameSite) are not part of the jar. *)
Definition saveConsent (p : Plugin) (c : value) : Plugin :=
  with_consent p (Some c)
    (<[cookieSettings_name (config p) := JSON_stringify c]> (cookies_jar p)).

(** [acceptAll()], called at time [now]. *)
Definition acceptAll (now : Z) (p : Plugin) : Plugin :=
  let c := ConsentData now (version (config p))
             [("essential", VBool true); ("analytics", VBool true);
              ("marketing", VBool true); ("preferences", VBool true)] in
  let p := saveConsent p c in
  let p := hideModal (hideCookieBar p) in
  with_callback p (onAccept (config p)) (OnAccept c).

(** [rejectAll()] *)
Definition rejectAll (now : Z) (p : Plugin) : Plugin :=
  let c := ConsentData now (version (config p))
             [("essential", VBool true); ("analytics", VBool false);
              ("marketing", VBool false); ("preferences", VBool false)] in
  let p := saveConsent p c in
  let p := hideModal (hideCookieBar p) in
  with_callback p (onReject (config p)) (OnReject c).

(** The checkbox [getModalHTML()] writes for one category of a
    markup-free template, where [data-category] is the key: [checked
    disabled] when the category is required, [checked] when the current
    consent has the category. *)
Definition modal_checkbox (current : option value) (entry : string * CookieCategory)
  : Checkbox :=
  let '(key, category) := entry in
  {| data_category := Some key;
     checked := required category ||
                match current with
                | Some c => truthy (get (get c "categories") key)
                | None => false
                end;
     disabled := required category |}.

(** The checkboxes of the modal that [createModal()] builds from
    [getModalHTML()]: one for each category, in order, when the template
    is markup-free. *)
Definition modal_checkboxes (cfg : CookiePluginConfig) (current : option value)
  : list Checkbox :=
  if markup_free cfg then map (modal_checkbox current) (categories cfg)
  else querySelectorAll_checkboxes cfg current.

(** [showCustomizeModal()] *)
Definition showCustomizeModal (p : Plugin) : Plugin :=
  match modal p with
  | Some _ => p
  | None => with_ui p false (Some (modal_checkboxes (config p) (consent p)))
  end.

(** The loop over the checkboxes in [saveCustomPreferences()]. *)
Definition collect_categories (inputs : list Checkbox) : list (string * value) :=
  fold_left
    (fun cats input =>
       match data_category input with
       | Some category =>
           if negb (String.eqb category "")
           then assign category (VBool (checked input)) cats
           else cats
       | None => cats
       end)
    inputs [].

(** [saveCustomPreferences()] *)
Definition saveCustomPreferences (now : Z) (p : Plugin) : Plugin :=
  match modal p with
  | None => p
  | Some inputs =>
      let c := ConsentData now (version (config p)) (collect_categories inputs) in
      let p := saveConsent p c in
      let p := hideModal p in
      with_callback p (onSave (config p)) (OnSave c)
  end.

(** A click of the user on the switch of category [key]: a disabled
    checkbox does not react. *)
Definition toggle (key : string) (input : Checkbox) : Checkbox :=
  if bool_decide (data_category input = Some key) && negb (disabled input)
  then {| data_category := data_category input;
          checked := negb (checked input);
          disabled := disabled input |}
  else input.

Definition click_switch (key : string) (p : Plugin) : Plugin :=
  with_ui p (cookieBar p) (map (toggle key) <$> modal p).

(** [reset()] *)
Definition reset (p : Plugin) : Plugin :=
  hideModal (hideCookieBar
    (with_consent p None (delete (cookieSettings_name (config p)) (cookies_jar p)))).

End Json.

End CookiePlugin.

(** ** [src/blocker.ts] *)
Module AutoBlocker.

Inductive RuleType := script | iframe | pixel.

Definition RuleType_eqb (a b : RuleType) : bool :=
  match a, b with
  | script, script | iframe, iframe | pixel, pixel => true
  | _, _ => false
  end.

Record Rule := {
  id : string;
  name : string;
  pattern : string;
  type : RuleType;
  category : string;
  enabled : bool;
  description : string
}.

Record Blocker := {
  rules : list Rule;
  isEnabled : bool
}.

(** [url.includes(pattern)] *)
Fixpoint includes (url pat : string) : bool :=
  String.prefix pat url ||
  match url with
  | EmptyString => false
  | String _ rest => includes rest pat
  end.

Definition initializeDefaultRules : list Rule :=
  [ {| id := "google-analytics"; name := "Google Analytics";
       pattern := "google-analytics.com"; type := script;
       category := "analytics"; enabled := true;
       description := "Blocks Google Analytics tracking" |};
    {| id := "google-tag-manager"; name := "Google Tag Manager";
       pattern := "googletagmanager.com"; type := script;
       category := "analytics"; enabled := true;
       description := "Blocks Google Tag Manager" |};
    {| id := "facebook-pixel"; name := "Facebook Pixel";
       pattern := "connect.facebook.net"; type := script;
       category := "marketing"; enabled := true;
       description := "Blocks Facebook Pixel tracking" |};
    {| id := "hotjar"; name := "Hotjar";
       pattern := "static.hotjar.com"; type := script;
       category := "analytics"; enabled := true;
       description := "Blocks Hotjar tracking" |} ].

(** [new AutoBlocker()] *)
Definition create : Blocker :=
  {| rules := initializeDefaultRules; isEnabled := false |}.

Definition enable (b : Blocker) : Blocker :=
  {| rules := rules b; isEnabled := true |}.

Definition disable (b : Blocker) : Blocker :=
  {| rules := rules b; isEnabled := false |}.

Definition addRule (rule : Rule) (b : Blocker) : Blocker :=
  {| rules := rules b ++ [rule]; isEnabled := isEnabled b |}.

Definition removeRule (ruleId : string) (b : Blocker) : Blocker :=
  {| rules := filter (fun rule => id rule ≠ ruleId) (rules b);
     isEnabled := isEnabled b |}.

(** [setRuleEnabled(ruleId, enabled)]: [find] takes the first rule with
    the id. *)
Fixpoint set_first (ruleId : string) (on : bool) (l : list Rule) : list Rule :=
  match l with
  | [] => []
  | rule :: rest =>
      if String.eqb (id rule) ruleId
      then {| id := id rule; name := name rule; pattern := pattern rule;
              type := type rule; category := category rule; enabled := on;
              description := description rule |} :: rest
      else rule :: set_first ruleId on rest
  end.

Definition setRuleEnabled (ruleId : string) (on : bool) (b : Blocker) : Blocker :=
  {| rules := set_first ruleId on (rules b); isEnabled := isEnabled b |}.

(** [isRuleEnabled(ruleId)] *)
Definition isRuleEnabled (ruleId : string) (b : Blocker) : bool :=
  match List.find (fun rule => String.eqb (id rule) ruleId) (rules b) with
  | Some rule => enabled rule
  | None => false
  end.

(** [getRules()] *)
Definition getRules (b : Blocker) : list Rule := rules b.

(** The common body of [shouldBlockScript], [shouldBlockIframe] and
    [shouldBlockPixel]. *)
Definition shouldBlock (ty : RuleType) (b : Blocker) (url : string) : bool :=
  isEnabled b &&
  existsb (fun rule =>
             enabled rule && RuleType_eqb (type rule) ty && includes url (pattern rule))
          (rules b).

Definition shouldBlockScript := shouldBlock script.
Definition shouldBlockIframe := shouldBlock iframe.
Definition shouldBlockPixel := shouldBlock pixel.

(** A script element as [applyBlocking] sees it: its [src] and, when the
    page has put one on the element, a [shouldBlockScript] method.  Inside
    the patched setter [this] is the element. *)
Record ScriptElement := {
  src : string;
  element_shouldBlockScript : option (string → bool)
}.

(** The [src] setter installed by the patched [document.createElement]. *)
Definition set_src (el : ScriptElement) (url : string) : ScriptElement :=
  match element_shouldBlockScript el with
  | Some blocks =>
      if negb (blocks url)
      then {| src := url; element_shouldBlockScript := Some blocks |}
      else el
  | None => {| src := url; element_shouldBlockScript := None |}
  end.

(** [document.createElement('script')] after [applyBlocking()]. *)
Definition createElement_script : ScriptElement :=
  {| src := ""; element_shouldBlockScript := None |}.

End AutoBlocker.

(** ** [src/geotargeting.ts] *)
Module GeoTargeting.
Import JS.

Inductive ConsentType := opt_in | opt_out.
Inductive BannerStyle := minimal | comprehensive | detailed.

Record Region := {
  code : string;
  name : string;
  laws : list string;
  requiresConsent : bool;
  consentType : ConsentType;
  cookieCategories : list string;
  bannerStyle : BannerStyle;
  language : string
}.

Record GeoTargetingConfig := {
  enabled : bool;
  fallbackRegion : Region;
  regions : gmap string Region
}.

Definition getDefaultRegion : Region :=
  {| code := "US"; name := "United States"; laws := ["CCPA"];
     requiresConsent := false; consentType := opt_out;
     cookieCategories := ["essential"; "analytics"; "marketing"; "preferences"];
     bannerStyle := minimal; language := "en" |}.

Definition region_EU : Region :=
  {| code := "EU"; name := "European Union"; laws := ["GDPR"];
     requiresConsent := true; consentType := opt_in;
     cookieCategories := ["essential"; "analytics"; "marketing"; "preferences"];
     bannerStyle := comprehensive; language := "en" |}.

Definition region_GB : Region :=
  {| code := "GB"; name := "United Kingdom"; laws := ["UK GDPR"; "PECR"];
     requiresConsent := true; consentType := opt_in;
     cookieCategories := ["essential"; "analytics"; "marketing"; "preferences"];
     bannerStyle := detailed; language := "en" |}.

Definition region_CA : Region :=
  {| code := "CA"; name := "California"; laws := ["CCPA"];
     requiresConsent := false; consentType := opt_out;
     cookieCategories := ["essential"; "analytics"; "marketing"; "preferences"];
     bannerStyle := minimal; language := "en" |}.

Definition initializeRegions : gmap string Region :=
  <["CA" := region_CA]> (<["GB" := region_GB]> (<["EU" := region_EU]> ∅)).

(** [new GeoTargeting(config)]: only [config.enabled] is read. *)
Definition create (config_enabled : option bool) : GeoTargetingConfig :=
  {| enabled := default true config_enabled;
     fallbackRegion := getDefaultRegion;
     regions := initializeRegions |}.

Definition euCountries : list string :=
  ["AT"; "BE"; "BG"; "HR"; "CY"; "CZ"; "DK"; "EE"; "FI"; "FR";
   "DE"; "GR"; "HU"; "IE"; "IT"; "LV"; "LT"; "LU"; "MT"; "NL";
   "PL"; "PT"; "RO"; "SK"; "SI"; "ES"; "SE"].

(** [getComplianceRegion()].  [location] is what [getCurrentLocation()]
    resolved to: [None] when the lookup failed, else the [country_code]
    of the answer (which is undefined when the answer has none). *)
Definition getComplianceRegion (cfg : GeoTargetingConfig) (location : option value)
  : Region :=
  if negb (enabled cfg) then fallbackRegion cfg
  else
    match location with
    | None => fallbackRegion cfg
    | Some (VStr countryCode) =>
        if bool_decide (countryCode ∈ euCountries)
        then default (fallbackRegion cfg) (regions cfg !! "EU")
        else default (fallbackRegion cfg) (regions cfg !! countryCode)
    | Some _ => fallbackRegion cfg
    end.

Definition texts_EU : list (string * string) :=
  [("title", "Cookie-Einstellungen");
   ("description", "Wir verwenden Cookies, um Ihre Erfahrung zu verbessern.");
   ("acceptAll", "Alle akzeptieren"); ("rejectAll", "Alle ablehnen");
   ("customize", "Anpassen")].

Definition texts_GB : list (string * string) :=
  [("title", "Cookie Preferences");
   ("description", "We use cookies to enhance your browsing experience.");
   ("acceptAll", "Accept All"); ("rejectAll", "Reject All");
   ("customize", "Customize")].

Definition texts_CA : list (string * string) :=
  [("title", "Cookie Settings");
   ("description", "We use cookies to improve your experience.");
   ("acceptAll", "Accept All"); ("rejectAll", "Opt Out");
   ("customize", "Manage Preferences")].

(** [getRegionTexts()]: [texts[region.code] || texts.CA] *)
Definition getRegionTexts (cfg : GeoTargetingConfig) (location : option value)
  : list (string * string) :=
  let region := getComplianceRegion cfg location in
  if String.eqb (code region) "EU" then texts_EU
  else if String.eqb (code region) "GB" then texts_GB
  else if String.eqb (code region) "CA" then texts_CA
  else texts_CA.

Definition isConsentRequired (cfg : GeoTargetingConfig) (location : option value) : bool :=
  requiresConsent (getComplianceRegion cfg location).

Definition getConsentType (cfg : GeoTargetingConfig) (location : option value)
  : ConsentType :=
  match consentType (getComplianceRegion cfg location) with
  | opt_in => opt_in
  | opt_out => opt_out
  end.

Definition getBannerStyle (cfg : GeoTargetingConfig) (location : option value)
  : BannerStyle :=
  bannerStyle (getComplianceRegion cfg location).

Definition getApplicableLaws (cfg : GeoTargetingConfig) (location : option value)
  : list string :=
  laws (getComplianceRegion cfg location).

End GeoTargeting.

(** ** [src/scanner.ts] *)
Module WebsiteScanner.

Definition includes := AutoBlocker.includes.

(** [patterns.some(pattern => name.includes(pattern))] *)
Definition some_included (patterns : list string) (name : string) : bool :=
  existsb (fun pattern => includes name pattern) patterns.

(** [categorizeCookie(name)] *)
Definition categorizeCookie (name : string) : string :=
  if some_included ["_ga"; "_gid"; "_gat"; "_gcl_au"; "_gcl_dc"] name then "analytics"
  else if some_included ["_fbp"; "fr"; "_gcl_aw"; "_gcl_dc"] name then "marketing"
  else if some_included ["theme"; "language"; "timezone"; "currency"] name then "preferences"
  else if some_included ["session"; "csrf"; "auth"; "cart"] name then "essential"
  else "unknown".

Definition purposes : list (string * string) :=
  [("_ga", "Google Analytics - distinguishes users");
   ("_gid", "Google Analytics - distinguishes users");
   ("_gat", "Google Analytics - throttles request rate");
   ("_fbp", "Facebook Pixel - tracks visitors");
   ("fr", "Facebook Pixel - tracks visitors");
   ("session", "Essential - maintains user session");
   ("csrf", "Essential - prevents cross-site request forgery");
   ("theme", "Preferences - stores user theme preference");
   ("language", "Preferences - stores user language preference")].

(** [getCookiePurpose(name)] *)
Definition getCookiePurpose (name : string) : string :=
  match List.find (fun entry => String.eqb entry.1 name) purposes with
  | Some entry => entry.2
  | None => "Unknown purpose"
  end.

Record DetectedTracker := {
  tracker_name : string;
  tracker_type : AutoBlocker.RuleType;
  tracker_url : string;
  tracker_domain : string;
  tracker_category : string;
  tracker_description : string;
  tracker_blocked : bool
}.

(** A pattern of [identifyTracker]: the alternatives of its regular
    expression (each a literal), the tracker name and the category. *)
Definition tracker_patterns : list (list string * string * string) :=
  [ (["google-analytics.com"; "googletagmanager.com"], "Google Analytics", "analytics");
    (["facebook.net"; "connect.facebook.net"], "Facebook Pixel", "marketing");
    (["hotjar.com"; "static.hotjar.com"], "Hotjar", "analytics");
    (["mixpanel.com"; "cdn.mxpnl.com"], "Mixpanel", "analytics") ].

Section Url.

(** [new URL(url).hostname]: [None] when the constructor throws. *)
Variable hostname : string → option string.

(** [identifyTracker(url)] *)
Definition identifyTracker (url : string) : option DetectedTracker :=
  (fix each (patterns : list (list string * string * string)) :=
     match patterns with
     | [] => None
     | (alternatives, name, category) :: rest =>
         if some_included alternatives url then
           match hostname url with
           | Some host =>
               Some {| tracker_name := name; tracker_type := AutoBlocker.script;
                       tracker_url := url; tracker_domain := host;
                       tracker_category := category;
                       tracker_description := name +:+ " tracking script";
                       tracker_blocked := false |}
           | None => each rest
           end
         else each rest
     end) tracker_patterns.

End Url.

End WebsiteScanner.

(** ** [backend/middleware/index.js], [backend/routes/index.js],
       [backend/config/index.js] *)
Module Middleware.
Import JS.

Record HttpResponse := {
  status : Z;
  json : value
}.

(** What a middleware does with a request: hand it on, or answer it. *)
Inductive Outcome :=
| next
| respond (res : HttpResponse).

Record RateLimit := {
  windowMs : Z;
  max : Z
}.

(** [config.api.rateLimit] *)
Definition config_api_rateLimit : RateLimit :=
  {| windowMs := 15 * 60 * 1000; max := 100 |}.

Record ClientData := {
  count : Z;
  resetTime : Z
}.

(** [Math.ceil(x / d)] for integers [x] and [d > 0]. *)
Definition ceil_div (x d : Z) : Z := - ((- x) / d).

(** [rateLimitMiddleware(req, res, next)] on [global.rateLimitStore], for
    the request of [clientIp] arriving at [now].  An entry read from the
    store is the stored object itself, so resetting it changes the store
    even when the request is then refused. *)
Definition rateLimitMiddleware (cfg : RateLimit)
    (rateLimitStore : gmap string ClientData) (clientIp : string) (now : Z)
  : Outcome * gmap string ClientData :=
  let stored := rateLimitStore !! clientIp in
  let clientData :=
    default {| count := 0; resetTime := now + windowMs cfg |} stored in
  let reset := bool_decide (now > resetTime clientData) in
  let clientData :=
    if reset then {| count := 0; resetTime := now + windowMs cfg |}
    else clientData in
  if bool_decide (count clientData >= max cfg) then
    (respond
       {| status := 429;
          json := VObj [("success", VBool false);
                        ("error", VStr "Too many requests. Please try again later.");
                        ("retryAfter",
                         num (ceil_div (resetTime clientData - now) 1000))] |},
     if reset && bool_decide (is_Some stored)
     then <[clientIp := clientData]> rateLimitStore
     else rateLimitStore)
  else
    (next,
     <[clientIp := {| count := count clientData + 1;
                      resetTime := resetTime clientData |}]> rateLimitStore).

(** The routes of [backend/routes/index.js] and the middleware each one
    runs before its handler, in order. *)
Inductive Route :=
| GET_cookie_config_languages
| GET_cookie_config_language
| GET_cookie_config
| POST_consent_log
| GET_admin_cookie_config
| PUT_admin_cookie_config
| DELETE_admin_cookie_config
| GET_admin_analytics_consent
| GET_health.

Inductive MiddlewareName := rateLimit | validateLanguage | auth.

Global Instance MiddlewareName_eq_dec : EqDecision MiddlewareName.
Proof. solve_decision. Defined.

Definition route_chain (r : Route) : list MiddlewareName :=
  match r with
  | GET_cookie_config_languages => [rateLimit]
  | GET_cookie_config_language => [rateLimit; validateLanguage]
  | GET_cookie_config => [rateLimit]
  | POST_consent_log => [rateLimit]
  | GET_admin_cookie_config => [auth]
  | PUT_admin_cookie_config => [auth]
  | DELETE_admin_cookie_config => [auth]
  | GET_admin_analytics_consent => [auth]
  | GET_health => [auth]
  end.

(** The rate-limiting step of the router for a request to route [r]. *)
Definition route_rateLimit (cfg : RateLimit) (r : Route)
    (rateLimitStore : gmap string ClientData) (clientIp : string) (now : Z)
  : Outcome * gmap string ClientData :=
  if bool_decide (rateLimit ∈ route_chain r)
  then rateLimitMiddleware cfg rateLimitStore clientIp now
  else (next, rateLimitStore).

(** A run of requests through the rate-limiting step, oldest first; the
    outcomes come back in the same order. *)
Fixpoint serve (cfg : RateLimit) (rateLimitStore : gmap string ClientData)
    (requests : list (Route * string * Z)) : list Outcome * gmap string ClientData :=
  match requests with
  | [] => ([], rateLimitStore)
  | (r, clientIp, now) :: rest =>
      let '(o, store') := route_rateLimit cfg r rateLimitStore clientIp now in
      let '(os, store'') := serve cfg store' rest in
      (o :: os, store'')
  end.

(** *** [backend/src/middleware/index.ts], [backend/src/config/index.ts] *)





End Middleware.

(** ** [backend/src/utils/index.ts]: validation

    The schemas are written with the zod combinators the file uses; [parse]
    gives them the meaning of zod's [safeParse]: every violated field adds
    one issue with the path of the field, a missing value takes the default
    of a [default] schema, unknown keys are dropped. *)
Module Validation.
Import JS.

Inductive StringCheck :=
| smin (n : nat)
| smax (n : nat)
| sregex (test : string → bool)
| strim.

Inductive NumberCheck :=
| nint
| nmin (lo : Z)
| nmax (hi : Z).

#[local] Unset Elimination Schemes.
Inductive Schema :=
| z_string (checks : list StringCheck)
| z_number (checks : list NumberCheck)
| z_boolean
| z_enum (options : list string)
| z_array (item : Schema)
| z_object (shape : list (string * Schema))
| z_default (inner : Schema) (d : value)
| z_optional (inner : Schema).
#[local] Set Elimination Schemes.

(** An issue of a failed parse: [received] is set by type mismatches
    only. *)
Record Issue := {
  issue_path : list string;
  issue_message : string;
  issue_received : value
}.

Definition issue (path : list string) (msg : string) : Issue :=
  {| issue_path := path; issue_message := msg; issue_received := VUndefined |}.

(** zod's name for the type of a value in its messages. *)
Definition parsedType (v : value) : string :=
  match v with
  | VUndefined => "undefined"
  | VNull => "null"
  | VBool _ => "boolean"
  | VNum x => if PrimFloat.is_nan x then "nan" else "number"
  | VStr _ => "string"
  | VArr _ => "array"
  | VObj _ => "object"
  end.

Definition invalid_type (path : list string) (expected : string) (v : value) : Issue :=
  {| issue_path := path;
     issue_message :=
       match v with
       | VUndefined => "Required"
       | _ => "Expected " +:+ expected +:+ ", received " +:+ parsedType v
       end;
     issue_received := VStr (parsedType v) |}.

Definition is_space (c : ascii) : bool :=
  let n := nat_of_ascii c in
  (Nat.eqb n 32 || (Nat.leb 9 n && Nat.leb n 13))%nat.

Fixpoint trim_start (s : string) : string :=
  match s with
  | String c rest => if is_space c then trim_start rest else s
  | EmptyString => EmptyString
  end.

Fixpoint trim_end (s : string) : string :=
  match s with
  | String c rest =>
      match trim_end rest with
      | EmptyString => if is_space c then EmptyString else String c EmptyString
      | rest' => String c rest'
      end
  | EmptyString => EmptyString
  end.

(** [s.trim()] *)
Definition trim (s : string) : string := trim_end (trim_start s).

(** The checks of a string schema run in the order they were added, each
    on the value the earlier ones left. *)
Fixpoint string_checks (path : list string) (checks : list StringCheck) (s : string)
  : list Issue * string :=
  match checks with
  | [] => ([], s)
  | c :: rest =>
      let '(here, s') :=
        match c with
        | smin n =>
            (if Nat.ltb (String.length s) n
             then [issue path ("String must contain at least " +:+ pretty n
                               +:+ " character(s)")]
             else [], s)
        | smax n =>
            (if Nat.ltb n (String.length s)
             then [issue path ("String must contain at most " +:+ pretty n
                               +:+ " character(s)")]
             else [], s)
        | sregex test =>
            (if test s then [] else [issue path "Invalid"], s)
        | strim => ([], trim s)
        end in
      let '(later, s'') := string_checks path rest s' in
      (here ++ later, s'')
  end.

(** The options of an enum as zod prints them. *)
Fixpoint one_of (options : list string) : string :=
  match options with
  | [] => ""
  | [o] => "'" +:+ o +:+ "'"
  | o :: rest => "'" +:+ o +:+ "' | " +:+ one_of rest
  end.

(** [Number.isInteger(x)] *)
Definition isInteger (x : float) : bool :=
  match Prim2SF x with
  | S754_zero _ => true
  | S754_finite _ m e =>
      bool_decide (0 <= e) || bool_decide (Z.pos m mod 2 ^ (- e) = 0)
  | _ => false
  end.

Definition number_checks (path : list string) (checks : list NumberCheck) (x : float)
  : list Issue :=
  flat_map
    (fun c =>
       match c with
       | nint =>
           if isInteger x then []
           else [issue path "Expected integer, received float"]
       | nmin lo =>
           if PrimFloat.leb (float_of_Z lo) x then []
           else [issue path ("Number must be greater than or equal to " +:+ pretty lo)]
       | nmax hi =>
           if PrimFloat.leb x (float_of_Z hi) then []
           else [issue path ("Number must be less than or equal to " +:+ pretty hi)]
       end)
    checks.

(** The loop of an object schema over its shape: every field is parsed
    at [path ++ [key]] from [v[key]], and kept in the output unless the
    parsed value is undefined. *)
Fixpoint parse_fields {S} (parse_field : S → list string → value → list Issue * value)
    (path : list string) (v : value) (shape : list (string * S))
  : list Issue * list (string * value) :=
  match shape with
  | [] => ([], [])
  | (key, field) :: rest =>
      let '(issues, x') := parse_field field (path ++ [key]) (get v key) in
      let '(issues', rest') := parse_fields parse_field path v rest in
      (issues ++ issues', if is_defined x' then (key, x') :: rest' else rest')
  end.

(** The loop of an array schema over the items, from index [i]. *)
Fixpoint parse_items (parse_item : list string → value → list Issue * value)
    (path : list string) (i : nat) (items : list value) : list Issue * list value :=
  match items with
  | [] => ([], [])
  | x :: rest =>
      let '(issues, x') := parse_item (path ++ [pretty i]) x in
      let '(issues', rest') := parse_items parse_item path (S i) rest in
      (issues ++ issues', x' :: rest')
  end.

(** [schema.safeParse(v)] below [path]: the issues and the parsed output
    (which is the result only when there is no issue). *)
Fixpoint parse (schema : Schema) (path : list string) (v : value)
  : list Issue * value :=
  match schema with
  | z_string checks =>
      match v with
      | VStr s => let '(issues, s') := string_checks path checks s in (issues, VStr s')
      | _ => ([invalid_type path "string" v], v)
      end
  | z_number checks =>
      match v with
      | VNum x =>
          if PrimFloat.is_nan x then ([invalid_type path "number" v], v)
          else (number_checks path checks x, v)
      | _ => ([invalid_type path "number" v], v)
      end
  | z_boolean =>
      match v with
      | VBool _ => ([], v)
      | _ => ([invalid_type path "boolean" v], v)
      end
  | z_enum options =>
      match v with
      | VStr s =>
          if bool_decide (s ∈ options) then ([], v)
          else ([{| issue_path := path;
                    issue_message := "Invalid enum value. Expected " +:+ one_of options
                                     +:+ ", received '" +:+ s +:+ "'";
                    issue_received := v |}], v)
      | _ => ([invalid_type path (one_of options) v], v)
      end
  | z_array item =>
      match v with
      | VArr items =>
          let '(issues, items') := parse_items (parse item) path 0 items in
          (issues, VArr items')
      | _ => ([invalid_type path "array" v], v)
      end
  | z_object shape =>
      match v with
      | VObj _ =>
          let '(issues, props) := parse_fields parse path v shape in
          (issues, VObj props)
      | _ => ([invalid_type path "object" v], v)
      end
  | z_default inner d =>
      match v with
      | VUndefined => parse inner path d
      | _ => parse inner path v
      end
  | z_optional inner =>
      match v with
      | VUndefined => ([], VUndefined)
      | _ => parse inner path v
      end
  end.

Definition in_range (lo hi c : ascii) : bool :=
  (Nat.leb (nat_of_ascii lo) (nat_of_ascii c) &&
   Nat.leb (nat_of_ascii c) (nat_of_ascii hi))%bool.

Definition is_hex_digit (c : ascii) : bool :=
  in_range "0" "9" c || in_range "A" "F" c || in_range "a" "f" c.

Definition is_lower (c : ascii) : bool := in_range "a" "z" c.
Definition is_upper (c : ascii) : bool := in_range "A" "Z" c.

(** [/^#[0-9A-Fa-f]{6}$/.test(s)] *)
Definition re_hex_color (s : string) : bool :=
  match list_ascii_of_string s with
  | [h; c1; c2; c3; c4; c5; c6] =>
      Ascii.eqb h "#" && forallb is_hex_digit [c1; c2; c3; c4; c5; c6]
  | _ => false
  end.

(** [/^[a-z]{2}(-[a-z]{2})?$/.test(s)] *)
Definition re_language (s : string) : bool :=
  match list_ascii_of_string s with
  | [a; b] => is_lower a && is_lower b
  | [a; b; d; c1; c2] =>
      is_lower a && is_lower b && Ascii.eqb d "-" && is_lower c1 && is_lower c2
  | _ => false
  end.

(** [/^[A-Z]{2}$/.test(s)] *)
Definition re_country (s : string) : bool :=
  match list_ascii_of_string s with
  | [a; b] => is_upper a && is_upper b
  | _ => false
  end.

Definition cookieCategorySchema : Schema :=
  z_object
    [ ("name", z_string [smin 1; smax 100; strim]);
      ("description", z_string [smin 1; smax 500; strim]);
      ("required", z_default z_boolean (VBool false));
      ("cookies", z_default (z_array (z_string [strim])) (VArr []));
      ("order", z_default (z_number [nint; nmin 0]) (num 0));
      ("enabled", z_default z_boolean (VBool true)) ].

Definition uiConfigSchema : Schema :=
  z_object
    [ ("primaryColor", z_default (z_string [sregex re_hex_color]) (VStr "#007bff"));
      ("secondaryColor", z_default (z_string [sregex re_hex_color]) (VStr "#6c757d"));
      ("borderRadius", z_default (z_string []) (VStr "8px"));
      ("fontFamily", z_default (z_string []) (VStr "system-ui, sans-serif"));
      ("fontSize", z_default (z_string []) (VStr "14px"));
      ("animation", z_default z_boolean (VBool true));
      ("backdrop", z_default z_boolean (VBool true)) ].

Definition textConfigSchema : Schema :=
  z_object
    [ ("title", z_string [smin 1; smax 100; strim]);
      ("description", z_string [smin 1; smax 500; strim]);
      ("acceptAll", z_string [smin 1; smax 50; strim]);
      ("rejectAll", z_string [smin 1; smax 50; strim]);
      ("customize", z_string [smin 1; smax 50; strim]);
      ("save", z_string [smin 1; smax 50; strim]);
      ("close", z_string [smin 1; smax 50; strim]);
      ("moreInfo", z_string [smin 1; smax 50; strim]);
      ("cookiePolicy", z_string [smin 1; smax 50; strim]);
      ("privacyPolicy", z_string [smin 1; smax 50; strim]) ].

Definition cookieSettingsSchema : Schema :=
  z_object
    [ ("name", z_default (z_string [smin 1; smax 50; strim]) (VStr "ns-cookie-consent"));
      ("expiry", z_default (z_number [nint; nmin 1; nmax 3650]) (num 365));
      ("domain", z_default (z_string [smax 100; strim]) (VStr ""));
      ("path", z_default (z_string [smax 100; strim]) (VStr "/"));
      ("secure", z_default z_boolean (VBool false));
      ("sameSite", z_default (z_enum ["Strict"; "Lax"; "None"]) (VStr "Lax")) ].

Definition cookieConfigSchema : Schema :=
  z_object
    [ ("language", z_string [sregex re_language]);
      ("country", z_optional (z_string [sregex re_country]));
      ("region", z_optional (z_string [strim]));
      ("texts", textConfigSchema);
      ("categories",
       z_object
         [ ("essential", cookieCategorySchema);
           ("analytics", cookieCategorySchema);
           ("marketing", cookieCategorySchema);
           ("preferences", cookieCategorySchema) ]);
      ("ui", uiConfigSchema);
      ("cookieSettings", cookieSettingsSchema);
      ("enabled", z_default z_boolean (VBool true));
      ("version", z_default (z_string []) (VStr "1.0.0")) ].

(** An entry of [ValidationResult.errors]. *)
Record ValidationError := {
  field : string;
  message : string;
  value_received : value
}.

Record ValidationResult := {
  isValid : bool;
  errors : list ValidationError;
  data : value
}.

(** [path.join('.')] *)
Fixpoint join_dot (path : list string) : string :=
  match path with
  | [] => ""
  | [x] => x
  | x :: rest => x +:+ "." +:+ join_dot rest
  end.

(** [ValidationService.validateConfig(config)] *)
Definition validateConfig (config : value) : ValidationResult :=
  let '(issues, output) := parse cookieConfigSchema [] config in
  match issues with
  | [] => {| isValid := true; errors := []; data := output |}
  | _ =>
      {| isValid := false;
         errors := map (fun i => {| field := join_dot (issue_path i);
                                    message := issue_message i;
                                    value_received := issue_received i |}) issues;
         data := VUndefined |}
  end.

End Validation.

(** ** [backend/src/utils/index.ts]: [ModernCacheService]

    ([CacheService] of [backend/utils/index.js] has the same four
    methods.)  Times are [Date.now()] in milliseconds, the time to live is
    in seconds. *)
Module Cache.
Import JS.

Record Item := {
  data : value;
  expires : Z
}.

Record CacheService := {
  cache : gmap string Item;
  config_enabled : bool;
  config_ttl : Z
}.

Definition with_cache (svc : CacheService) (m : gmap string Item) : CacheService :=
  {| cache := m; config_enabled := config_enabled svc; config_ttl := config_ttl svc |}.

Definition isEnabled (svc : CacheService) : bool := config_enabled svc.

(** [get(key)] at time [now]: the value returned ([null] on a miss) and
    the service afterwards. *)
Definition get (svc : CacheService) (key : string) (now : Z) : value * CacheService :=
  if negb (isEnabled svc) then (VNull, svc)
  else
    match cache svc !! key with
    | None => (VNull, svc)
    | Some item =>
        if bool_decide (now > expires item)
        then (VNull, with_cache svc (delete key (cache svc)))
        else (data item, svc)
    end.

(** [set(key, data, ttl)] at time [now]; [ttl] defaults to [config.ttl]. *)
Definition set (svc : CacheService) (key : string) (d : value) (ttl : option Z)
    (now : Z) : CacheService :=
  if negb (isEnabled svc) then svc
  else
    with_cache svc
      (<[key := {| data := d; expires := now + default (config_ttl svc) ttl * 1000 |}]>
         (cache svc)).

(** [delete(key)] *)
Definition delete (svc : CacheService) (key : string) : CacheService :=
  if negb (isEnabled svc) then svc
  else with_cache svc (base.delete key (cache svc)).

(** [clear()] *)
Definition clear (svc : CacheService) : CacheService :=
  if negb (isEnabled svc) then svc else with_cache svc ∅.

(** [cleanup()] *)
Definition cleanup (svc : CacheService) (now : Z) : CacheService :=
  with_cache svc (filter (fun kv => ¬ now > expires kv.2) (cache svc)).

End Cache.

(** ** [backend/src/controllers/index.ts]: [CookieConfigController] *)
Module Controllers.
Import JS.

(** [ApiError] and its subclasses, as the error handler reads them. *)
Record ApiError := {
  statusCode : Z;
  error_name : string;
  error_message : string;
  details : list Validation.ValidationError
}.

Definition ValidationError (msg : string) (errors : list Validation.ValidationError)
  : ApiError :=
  {| statusCode := 400; error_name := "ValidationError"; error_message := msg;
     details := errors |}.

Definition NotFoundError (resource : string) : ApiError :=
  {| statusCode := 404; error_name := "NotFoundError";
     error_message := resource +:+ " not found"; details := [] |}.

Inductive Source := from_cache | from_database.

Record ApiResponse := {
  success : bool;
  data : value;
  language : string;
  source : option Source
}.

(** What a handler can throw: an [ApiError], or what a failed [save()]
    raises in the driver. *)
Inductive Error :=
| api_error (e : ApiError)
| mongoose_validation_error
| mongoose_duplicate_key.

(** What a handler ends with: [res.json(response)] or [next(error)]. *)
Inductive Reply :=
| res_json (response : ApiResponse)
| next_error (e : Error).

(** [errorHandlingMiddleware]: status and [details] of the answer. *)
Definition errorHandlingMiddleware (e : Error) : Z * list Validation.ValidationError :=
  match e with
  | api_error e => (statusCode e, details e)
  | mongoose_validation_error => (400, [])
  | mongoose_duplicate_key => (400, [])
  end.

(** The service state a handler works on: the cache and the
    [CookieConfig] collection. *)
Record Service := {
  cacheService : Cache.CacheService;
  CookieConfig : list value
}.

Definition lower_ascii (c : ascii) : ascii :=
  let n := nat_of_ascii c in
  if (Nat.leb 65 n && Nat.leb n 90)%nat then ascii_of_nat (n + 32) else c.

(** [s.toLowerCase()] *)
Fixpoint toLowerCase (s : string) : string :=
  match s with
  | EmptyString => EmptyString
  | String c rest => String (lower_ascii c) (toLowerCase rest)
  end.

(** Equality of a stored field with the string or boolean of a query. *)
Definition field_eqb (a b : value) : bool :=
  match a, b with
  | VStr x, VStr y => String.eqb x y
  | VBool x, VBool y => Bool.eqb x y
  | _, _ => false
  end.

Definition matches (query : list (string * value)) (doc : value) : bool :=
  forallb (fun '(k, v) => field_eqb (JS.get doc k) v) query.

(** [CookieConfig.findOne(query)]: the position and the document. *)
Definition findOne (query : list (string * value)) (coll : list value)
  : option (nat * value) :=
  list_find (fun doc => matches query doc = true) coll.

(** [Object.assign(target, source)] *)
Definition Object_assign (target source : value) : value :=
  fold_left (fun acc '(k, v) => JS.set acc k v) (own_props source) target.

(** [deleteConfig] for [req.params.language = language]:
    [findOneAndDelete] takes the first document of the language out. *)
Definition deleteConfig (language : string) (s : Service) : Reply * Service :=
  match findOne [("language", VStr (toLowerCase language))] (CookieConfig s) with
  | None =>
      (next_error (api_error (NotFoundError
                     ("Configuration for language '" +:+ language +:+ "'"))), s)
  | Some (i, _) =>
      let svc :=
        if Cache.isEnabled (cacheService s)
        then Cache.delete (cacheService s) ("cookie-config-" +:+ language)
        else cacheService s in
      (res_json {| success := true; data := VObj [("deleted", VBool true)];
                   language := language; source := None |},
       {| cacheService := svc; CookieConfig := base.delete i (CookieConfig s) |})
  end.


Section Store.

(** What saving makes of a document: the document as persisted (with the
    defaults and setters of the Mongoose schema applied), or [None] when
    the schema rejects it. *)
Variable persisted : value → option value.

(** The unique index on [language]: no document other than the one at
    [skip] may carry the language of [doc]. *)
Definition language_free (coll : list value) (skip : option nat) (doc : value) : bool :=
  forallb (fun '(i, d) =>
             bool_decide (Some i = skip) || negb (field_eqb (JS.get d "language") (JS.get doc "language")))
          (imap pair coll).

(** [getConfigByLanguage] for [req.params.language = language] at [now]. *)
Definition getConfigByLanguage (language : string) (now : Z) (s : Service)
  : Reply * Service :=
  let cacheKey := "cookie-config-" +:+ language in
  let '(cached, svc) :=
    if Cache.isEnabled (cacheService s)
    then Cache.get (cacheService s) cacheKey now
    else (VUndefined, cacheService s) in
  if Cache.isEnabled (cacheService s) && truthy cached then
    (res_json {| success := true; data := cached; language := language;
                 source := Some from_cache |},
     {| cacheService := svc; CookieConfig := CookieConfig s |})
  else
    match findOne [("language", VStr (toLowerCase language)); ("enabled", VBool true)]
                  (CookieConfig s) with
    | None =>
        (next_error (api_error (NotFoundError
                       ("Configuration for language '" +:+ language +:+ "'"))),
         {| cacheService := svc; CookieConfig := CookieConfig s |})
    | Some (_, config) =>
        let svc :=
          if Cache.isEnabled svc then Cache.set svc cacheKey config (Some 300) now
          else svc in
        (res_json {| success := true; data := config; language := language;
                     source := Some from_database |},
         {| cacheService := svc; CookieConfig := CookieConfig s |})
    end.

(** [createOrUpdateConfig] for [req.params.language = language],
    [req.body = configData] and [req.user?.id = user]. *)
Definition createOrUpdateConfig (language : string) (configData user : value)
    (s : Service) : Reply * Service :=
  let v := Validation.validateConfig configData in
  if negb (Validation.isValid v) then
    (next_error (api_error (ValidationError "Invalid configuration format"
                                            (Validation.errors v))), s)
  else
    let data := Validation.data v in
    let existingConfig := findOne [("language", VStr (toLowerCase language))] (CookieConfig s) in
    let saved :=
      match existingConfig with
      | Some (i, existing) =>
          let doc := JS.set (Object_assign existing data) "updatedBy" user in
          match persisted doc with
          | Some config =>
              if language_free (CookieConfig s) (Some i) config
              then inl (config, <[i := config]> (CookieConfig s))
              else inr mongoose_duplicate_key
          | None => inr mongoose_validation_error
          end
      | None =>
          let doc := JS.set (JS.set (spread data) "language" (VStr (toLowerCase language)))
                            "createdBy" user in
          match persisted doc with
          | Some config =>
              if language_free (CookieConfig s) None config
              then inl (config, CookieConfig s ++ [config])
              else inr mongoose_duplicate_key
          | None => inr mongoose_validation_error
          end
      end in
    match saved with
    | inr e => (next_error e, s)
    | inl (config, coll) =>
        let svc :=
          if Cache.isEnabled (cacheService s)
          then Cache.delete (cacheService s) ("cookie-config-" +:+ language)
          else cacheService s in
        (res_json {| success := true; data := config; language := language;
                     source := None |},
         {| cacheService := svc; CookieConfig := coll |})
    end.

End Store.

End Controllers.

(** ** [src/CookiePluginWithBackend.ts]: configuration fetch and cache *)
Module CookiePluginWithBackend.
Import JS.

(** [this.backendOptions] after the constructor has put the defaults
    under the options of the caller. *)
Record BackendConfigOptions := {
  apiEndpoint : string;
  language : option string;
  cacheTimeout : option Z;
  enableCache : bool
}.

(** The defaults of the constructor: caching on, five minutes. *)
Definition default_options (endpoint : string) (lang : option string)
  : BackendConfigOptions :=
  {| apiEndpoint := endpoint; language := lang;
     cacheTimeout := Some (5 * 60 * 1000); enableCache := true |}.

Record ConfigCache := {
  cached_data : value;
  timestamp : Z
}.

(** The widget state the fetch works on; [fetched] lists the URLs
    requested from the network, oldest first. *)
Record Widget := {
  backendOptions : BackendConfigOptions;
  configCache : option ConfigCache;
  fetched : list string
}.

(** What the network does with one [fetch]: it fails (or times out), or
    it answers with [response.ok] and a body; the body is [None] when
    [response.json()] throws. *)
Inductive FetchResult :=
| fetch_failed
| fetch_response (ok : bool) (body : option value).

(** [loadBackendConfig()]: [now] is the clock when the call starts,
    [net] what the network would answer, [now'] the clock when the answer
    is stored.  [inr] is a thrown error.  The endpoint is taken to be a
    URL that [new URL] accepts, with a path that is not empty and no
    query, so that appending to its path is appending to it. *)
Definition loadBackendConfig (w : Widget) (now : Z) (net : FetchResult) (now' : Z)
  : (value + string) * Widget :=
  let opts := backendOptions w in
  let fresh :=
    match configCache w, cacheTimeout opts with
    | Some c, Some timeout =>
        enableCache opts && bool_decide (now - timestamp c < timeout)
    | _, _ => false
    end in
  match fresh, configCache w with
  | true, Some c => (inl (cached_data c), w)
  | _, _ =>
      let url :=
        match language opts with
        | Some l => if String.eqb l "" then apiEndpoint opts
                    else apiEndpoint opts +:+ "/" +:+ l
        | None => apiEndpoint opts
        end in
      let w := {| backendOptions := opts; configCache := configCache w;
                  fetched := fetched w ++ [url] |} in
      match net with
      | fetch_failed => (inr "fetch failed", w)
      | fetch_response false _ => (inr "Backend API error", w)
      | fetch_response true None => (inr "invalid JSON", w)
      | fetch_response true (Some result) =>
          match result with
          | VNull | VUndefined => (inr "TypeError", w)
          | _ =>
              if negb (truthy (get result "success")) || negb (truthy (get result "data"))
              then (inr "Invalid response format from backend API", w)
              else
                (inl (get result "data"),
                 {| backendOptions := opts;
                    configCache :=
                      if enableCache opts
                      then Some {| cached_data := get result "data"; timestamp := now' |}
                      else configCache w;
                    fetched := fetched w |})
          end
      end
  end.

End CookiePluginWithBackend.

(** ** [src/logger.ts]: [ConsentLogger] *)
Module ConsentLogger.
Import JS.

Inductive StorageType := in_localStorage | in_sessionStorage | in_indexedDB | on_server.

Record ConsentLoggerConfig := {
  enabled : bool;
  storageType : StorageType;
  serverEndpoint : option string;
  anonymizeData : bool
}.

(** [new ConsentLogger(config)] *)
Definition create (enabled_opt : option bool) (storageType_opt : option StorageType)
    (endpoint : option string) (anonymize_opt : option bool) : ConsentLoggerConfig :=
  {| enabled := default true enabled_opt;
     storageType := default in_localStorage storageType_opt;
     serverEndpoint := endpoint;
     anonymizeData := default true anonymize_opt |}.

(** What the logger writes to: the two web storages, the object store of
    the [NSCookieLogs] database, and the bodies posted to the server. *)
Record Browser := {
  localStorage : gmap string string;
  sessionStorage : gmap string string;
  indexedDB_logs : list value;
  posted : list (string * string)
}.

(** [s.split(sep)] for a one-character separator. *)
Fixpoint split (sep : ascii) (s : string) : list string :=
  match s with
  | EmptyString => [EmptyString]
  | String c rest =>
      if Ascii.eqb c sep then EmptyString :: split sep rest
      else
        match split sep rest with
        | head :: tail => String c head :: tail
        | [] => [String c EmptyString]
        end
  end.

(** [anonymizeIP(ip)] *)
Definition anonymizeIP (ip : string) : string :=
  if String.eqb ip "unknown" then ip
  else
    match split "." ip with
    | [p0; p1; p2; _] => p0 +:+ "." +:+ p1 +:+ "." +:+ p2 +:+ ".xxx"
    | _ => ip
    end.

Section Json.

(** [JSON.parse] ([None] when it throws) and [JSON.stringify]. *)
Variable JSON_parse : string → option value.
Variable JSON_stringify : value → string.

(** [getLogsFromStorage(storageType)], on the storage itself. *)
Definition getLogsFromStorage (storage : gmap string string) : value :=
  match storage !! "ns-cookie-logs" with
  | Some logs =>
      if negb (String.eqb logs "") then default (VArr []) (JSON_parse logs)
      else VArr []
  | None => VArr []
  end.

(** The body of [storeInLocalStorage] and [storeInSessionStorage]:
    [push] throws on anything but an array, and the error is swallowed. *)
Definition storeInStorage (storage : gmap string string) (logEntry : value)
  : gmap string string :=
  match getLogsFromStorage storage with
  | VArr logs => <["ns-cookie-logs" := JSON_stringify (VArr (logs ++ [logEntry]))]> storage
  | _ => storage
  end.

(** [storeLogEntry(logEntry)] *)
Definition storeLogEntry (cfg : ConsentLoggerConfig) (logEntry : value) (b : Browser)
  : Browser :=
  match storageType cfg with
  | in_localStorage =>
      {| localStorage := storeInStorage (localStorage b) logEntry;
         sessionStorage := sessionStorage b; indexedDB_logs := indexedDB_logs b;
         posted := posted b |}
  | in_sessionStorage =>
      {| localStorage := localStorage b;
         sessionStorage := storeInStorage (sessionStorage b) logEntry;
         indexedDB_logs := indexedDB_logs b; posted := posted b |}
  | in_indexedDB =>
      {| localStorage := localStorage b; sessionStorage := sessionStorage b;
         indexedDB_logs := indexedDB_logs b ++ [logEntry]; posted := posted b |}
  | on_server =>
      match serverEndpoint cfg with
      | Some endpoint =>
          if negb (String.eqb endpoint "") then
            {| localStorage := localStorage b; sessionStorage := sessionStorage b;
               indexedDB_logs := indexedDB_logs b;
               posted := posted b ++ [(endpoint, JSON_stringify logEntry)] |}
          else b
      | None => b
      end
  end.

(** [getSessionId()]: [fresh] is the identifier [generateId()] would
    return. *)
Definition getSessionId (fresh : string) (b : Browser) : string * Browser :=
  match sessionStorage b !! "ns-cookie-session-id" with
  | Some sessionId =>
      if negb (String.eqb sessionId "") then (sessionId, b)
      else (fresh,
            {| localStorage := localStorage b;
               sessionStorage := <["ns-cookie-session-id" := fresh]> (sessionStorage b);
               indexedDB_logs := indexedDB_logs b; posted := posted b |})
  | None =>
      (fresh,
       {| localStorage := localStorage b;
          sessionStorage := <["ns-cookie-session-id" := fresh]> (sessionStorage b);
          indexedDB_logs := indexedDB_logs b; posted := posted b |})
  end.

(** [getIPAddress()]: [answer] is the body of the lookup, [None] when the
    request or its decoding failed. *)
Definition getIPAddress (answer : option value) : value :=
  match answer with
  | Some VNull | Some VUndefined | None => VStr "unknown"
  | Some data => get data "ip"
  end.

(** What the page and the clock give one call of [logConsent]. *)
Record Environment := {
  now : Z;
  fresh_log_id : string;
  fresh_session_id : string;
  userAgent : string;
  ip_answer : option value;
  referrer : string;
  href : string
}.

(** [logConsent(action, consentData)]: the flag is false when the call
    rejects, which [anonymizeIP] makes it do on an address that is not a
    string; the session identifier has been stored by then. *)
Definition logConsent (cfg : ConsentLoggerConfig) (env : Environment)
    (action : string) (consentData : value) (b : Browser) : bool * Browser :=
  if negb (enabled cfg) then (true, b)
  else
    let ipAddress := getIPAddress (ip_answer env) in
    let '(sessionId, b) := getSessionId (fresh_session_id env) b in
    let entry (ip : value) :=
      VObj [("id", VStr (fresh_log_id env)); ("timestamp", num (now env));
            ("action", VStr action); ("consentData", consentData);
            ("userAgent", VStr (userAgent env)); ("ipAddress", ip);
            ("referrer", VStr (referrer env)); ("pageUrl", VStr (href env));
            ("sessionId", VStr sessionId); ("version", VStr "1.0.0")] in
    if anonymizeData cfg then
      match ipAddress with
      | VStr ip => (true, storeLogEntry cfg (entry (VStr (anonymizeIP ip))) b)
      | _ => (false, b)
      end
    else (true, storeLogEntry cfg (entry ipAddress) b).

(** [getConsentLogs()] *)
Definition getConsentLogs (cfg : ConsentLoggerConfig) (b : Browser) : value :=
  match storageType cfg with
  | in_localStorage => getLogsFromStorage (localStorage b)
  | in_sessionStorage => getLogsFromStorage (sessionStorage b)
  | _ => VArr []
  end.

End Json.

End ConsentLogger.

(** ** [backend/src/utils/index.ts]: [arrayUtils], [objectUtils],
       [ValidationService.sanitizeInput]; [backend/utils/index.js]:
       [sanitizeInput] *)
Module ModernUtils.
Import JS.

(** [array.slice(start, end)] for integer bounds. *)
Definition slice {A} (array : list A) (start stop : Z) : list A :=
  let len := Z.of_nat (length array) in
  let from := if bool_decide (start < 0) then Z.max (len + start) 0 else Z.min start len in
  let to := if bool_decide (stop < 0) then Z.max (len + stop) 0 else Z.min stop len in
  take (Z.to_nat (to - from)) (drop (Z.to_nat from) array).

(** The loop of [arrayUtils.chunk]: [None] when the fuel runs out before
    [i] reaches the length. *)
Fixpoint chunk_loop {A} (fuel : nat) (array : list A) (size i : Z)
    (chunks : list (list A)) : option (list (list A)) :=
  match fuel with
  | O => None
  | S fuel' =>
      if bool_decide (i < Z.of_nat (length array))
      then chunk_loop fuel' array size (i + size) (chunks ++ [slice array i (i + size)])
      else Some chunks
  end.

(** [arrayUtils.chunk(array, size)] *)
Definition chunk {A} (fuel : nat) (array : list A) (size : Z) : option (list (list A)) :=
  chunk_loop fuel array size 0 [].

(** [arrayUtils.unique(array)]: a [Set] keeps the first occurrence of
    each element, in insertion order. *)
Fixpoint unique_into {A} `{EqDecision A} (seen : list A) (array : list A) : list A :=
  match array with
  | [] => seen
  | x :: rest =>
      if bool_decide (x ∈ seen) then unique_into seen rest
      else unique_into (seen ++ [x]) rest
  end.

Definition unique {A} `{EqDecision A} (array : list A) : list A := unique_into [] array.

(** [objectUtils.deepMerge(target, source)].  The arrow function reads
    [this.deepMerge] where [this] is the undefined [this] of the module,
    so reaching a nested object throws; [None] is that [TypeError]. *)
Definition objectUtils_deepMerge (target source : value) : option value :=
  fold_left
    (fun acc '(key, v) =>
       match acc with
       | None => None
       | Some result =>
           if truthy v && type_tag_eqb (typeof v) TObject && negb (isArray v)
           then None
           else Some (assign key v result)
       end)
    (own_props source) (Some (own_props target))
  ≫= fun result => Some (VObj result).

(** [objectUtils.pick(obj, keys)] *)
Definition pick (obj : value) (keys : list string) : value :=
  VObj (fold_left
          (fun result key =>
             match assoc key (own_props obj) with
             | Some v => assign key v result
             | None => result
             end)
          keys []).

(** [delete result[key]] *)
Definition delete_key (key : string) (props : list (string * value))
  : list (string * value) :=
  filter (fun entry => entry.1 ≠ key) props.

(** [objectUtils.omit(obj, keys)] *)
Definition omit (obj : value) (keys : list string) : value :=
  VObj (fold_left (fun result key => delete_key key result) keys (own_props obj)).




(** [ValidationService.validateLanguage(language)] *)
Definition validateLanguage (language : string) : bool := Validation.re_language language.

End ModernUtils.

(** ** [src/CookiePluginWithBackend.ts]: the configuration and its merges *)
Module BackendConfig.
Import JS.

(** [getDefaultConfig()] as the object it returns. *)
Definition getDefaultConfig : value :=
  let category (name description : string) (required : bool) (cookies : list string) :=
    VObj [("name", VStr name); ("description", VStr description);
          ("required", VBool required); ("cookies", VArr (map VStr cookies))] in
  VObj
    [ ("enabled", VBool true); ("theme", VStr "light"); ("position", VStr "bottom");
      ("autoShow", VBool true); ("showOnScroll", VBool false);
      ("scrollThreshold", num 100);
      ("categories",
       VObj
         [ ("essential",
            category "Essential"
              "These cookies are necessary for the website to function properly."
              true ["session"; "csrf"; "language"]);
           ("analytics",
            category "Analytics"
              "These cookies help us understand how visitors interact with our website."
              false ["_ga"; "_gid"; "_gat"]);
           ("marketing",
            category "Marketing"
              "These cookies are used to deliver personalized advertisements."
              false ["_fbp"; "fr"]);
           ("preferences",
            category "Preferences"
              "These cookies remember your preferences and settings."
              false ["theme"; "language"; "timezone"]) ]);
      ("ui",
       VObj [("primaryColor", VStr "#007bff"); ("secondaryColor", VStr "#6c757d");
             ("borderRadius", VStr "8px"); ("fontFamily", VStr "system-ui, sans-serif");
             ("fontSize", VStr "14px"); ("animation", VBool true);
             ("backdrop", VBool true)]);
      ("texts",
       VObj [("title", VStr "Cookie Consent");
             ("description", VStr "We use cookies to enhance your browsing experience.");
             ("acceptAll", VStr "Accept All"); ("rejectAll", VStr "Reject All");
             ("customize", VStr "Customize"); ("save", VStr "Save Preferences");
             ("close", VStr "Close"); ("moreInfo", VStr "More Information");
             ("cookiePolicy", VStr "Cookie Policy");
             ("privacyPolicy", VStr "Privacy Policy")]);
      ("cookieSettings",
       VObj [("name", VStr "ns-cookie-consent"); ("expiry", num 365);
             ("domain", VStr ""); ("path", VStr "/"); ("secure", VBool false);
             ("sameSite", VStr "Lax")]);
      ("debug", VBool false); ("version", VStr "1.0.0") ].

(** [mergeConfig(backendConfig, userConfig)] *)
Definition mergeConfig (backendConfig userConfig : value) : value :=
  Utils.deepMerge getDefaultConfig (Utils.deepMerge backendConfig userConfig).

(** The plugin with its backend: the fetch state and [this.config]. *)
Record Instance := {
  widget : CookiePluginWithBackend.Widget;
  config : value
}.

(** The configuration [initWithBackend(userConfig)] arrives at: the merge
    with what the backend sent or, when loading threw, with
    [fallbackConfig || {}]. *)
Definition initWithBackend (userConfig : value) (fallbackConfig : value)
    (w : CookiePluginWithBackend.Widget) (now : Z)
    (net : CookiePluginWithBackend.FetchResult) (now' : Z) : Instance :=
  match CookiePluginWithBackend.loadBackendConfig w now net now' with
  | (inl backendConfig, w') =>
      {| widget := w'; config := mergeConfig backendConfig userConfig |}
  | (inr _, w') =>
      {| widget := w';
         config := mergeConfig (or_else fallbackConfig (VObj [])) userConfig |}
  end.

(** [refreshConfig()]: [inr] is the error it rethrows. *)
Definition refreshConfig (inst : Instance) (now : Z)
    (net : CookiePluginWithBackend.FetchResult) (now' : Z)
  : (unit + string) * Instance :=
  let w := widget inst in
  let cleared :=
    {| CookiePluginWithBackend.backendOptions := CookiePluginWithBackend.backendOptions w;
       CookiePluginWithBackend.configCache := None;
       CookiePluginWithBackend.fetched := CookiePluginWithBackend.fetched w |} in
  match CookiePluginWithBackend.loadBackendConfig cleared now net now' with
  | (inl backendConfig, w') =>
      (inl tt, {| widget := w'; config := mergeConfig backendConfig (config inst) |})
  | (inr e, w') => (inr e, {| widget := w'; config := config inst |})
  end.

(** [setLanguage(language)] *)
Definition setLanguage (language : string) (inst : Instance) (now : Z)
    (net : CookiePluginWithBackend.FetchResult) (now' : Z)
  : (unit + string) * Instance :=
  let w := widget inst in
  let o := CookiePluginWithBackend.backendOptions w in
  refreshConfig
    {| widget :=
         {| CookiePluginWithBackend.backendOptions :=
              {| CookiePluginWithBackend.apiEndpoint := CookiePluginWithBackend.apiEndpoint o;
                 CookiePluginWithBackend.language := Some language;
                 CookiePluginWithBackend.cacheTimeout := CookiePluginWithBackend.cacheTimeout o;
                 CookiePluginWithBackend.enableCache := CookiePluginWithBackend.enableCache o |};
            CookiePluginWithBackend.configCache := CookiePluginWithBackend.configCache w;
            CookiePluginWithBackend.fetched := CookiePluginWithBackend.fetched w |};
       config := config inst |}
    now net now'.

(** [updateConfig(newConfig)] *)
Definition updateConfig (newConfig : value) (inst : Instance) : Instance :=
  {| widget := widget inst; config := mergeConfig (config inst) newConfig |}.

End BackendConfig.

(** * Properties *)

(** ** Property lists *)
Module JSFacts.
Import JS.

Lemma assoc_assign_eq k v l : assoc k (assign k v l) = Some v.
Proof.
  induction l as [|[k' v'] l IH]; simpl.
  - by rewrite String.eqb_refl.
  - destruct (String.eqb k k') eqn:E; simpl.
    + by rewrite String.eqb_refl.
    + by rewrite E.
Qed.

Lemma assoc_assign_ne k k' v l : k ≠ k' → assoc k' (assign k v l) = assoc k' l.
Proof.
  intros Hne. induction l as [|[k0 v0] l IH]; simpl.
  - destruct (String.eqb k' k) eqn:E; [|done].
    apply String.eqb_eq in E. congruence.
  - destruct (String.eqb k k0) eqn:E; simpl.
    + apply String.eqb_eq in E. subst k0.
      destruct (String.eqb k' k) eqn:E'; [|done].
      apply String.eqb_eq in E'. congruence.
    + by rewrite IH.
Qed.

Lemma assoc_None_notin k l : assoc k l = None → k ∉ l.*1.
Proof.
  induction l as [|[k' v'] l IH]; simpl; [by intros _ H; inversion H|].
  destruct (String.eqb k k') eqn:E; [done|].
  intros H. apply String.eqb_neq in E. apply IH in H.
  by apply not_elem_of_cons.
Qed.

End JSFacts.

(** ** [deepMerge] *)
Module UtilsSpec.
Import JS Utils JSFacts.

(** The source values [deepMerge] descends into: non-array objects. *)
Definition descends (sv : value) : bool :=
  truthy sv && type_tag_eqb (typeof sv) TObject && negb (isArray sv).

Lemma descends_object sv :
  descends sv = match sv with VObj _ => true | _ => false end.
Proof.
  unfold descends. destruct sv; simpl; rewrite ?andb_false_r; done.
Qed.

Lemma deepMerge_object target props :
  deepMerge target (VObj props) =
  VObj (for_in (fun key sv result =>
                  merge_key key sv (deepMerge (or_else (get target key) (VObj [])) sv) result)
               props (own_props target)).
Proof. reflexivity. Qed.

Lemma assoc_merge_key_ne k key sv nested result :
  key ≠ k → assoc k (merge_key key sv nested result) = assoc k result.
Proof.
  intros Hne. unfold merge_key.
  destruct (_ && _ && _); [by apply assoc_assign_ne|].
  destruct (is_defined sv); [by apply assoc_assign_ne|done].
Qed.

Lemma assoc_merge_key_eq key sv nested result :
  assoc key (merge_key key sv nested result) =
  if descends sv then Some nested
  else if is_defined sv then Some sv
  else assoc key result.
Proof.
  unfold merge_key, descends.
  destruct (_ && _ && _); [by apply assoc_assign_eq|].
  destruct (is_defined sv); [by apply assoc_assign_eq|done].
Qed.

Section ForIn.
Variable nested : string → value → value.

Let body := fun key sv result => merge_key key sv (nested key sv) result.

Lemma for_in_untouched k props result :
  k ∉ props.*1 → assoc k (for_in body props result) = assoc k result.
Proof.
  revert result. induction props as [|[key sv] props IH]; intros result Hnot; [done|].
  apply not_elem_of_cons in Hnot as [Hne Hnot]. simpl.
  rewrite IH by done. unfold body. by apply assoc_merge_key_ne.
Qed.

Lemma for_in_visited k sv props result :
  NoDup props.*1 → assoc k props = Some sv →
  assoc k (for_in body props result) =
  if descends sv then Some (nested k sv)
  else if is_defined sv then Some sv
  else assoc k result.
Proof.
  revert result. induction props as [|[key sv'] props IH]; intros result Hnd Hk; [done|].
  simpl in Hnd, Hk. apply NoDup_cons in Hnd as [Hfresh Hnd]. simpl.
  destruct (String.eqb k key) eqn:E.
  - apply String.eqb_eq in E. subst key. injection Hk as ->.
    rewrite for_in_untouched by done. unfold body. apply assoc_merge_key_eq.
  - apply String.eqb_neq in E. rewrite IH by done.
    destruct (descends sv); [done|]. destruct (is_defined sv); [done|].
    unfold body. by apply assoc_merge_key_ne.
Qed.
End ForIn.

(** C10. Reading key [k] of [deepMerge(target, source)], for objects
    [target] and [source]: when the source's value at [k] is undefined the
    result has the target's value; a source value that is null, a
    primitive or an array is the result as it stands; a source value that
    is a non-array object gives the merge of the target's value (or of the
    empty object when that is falsy) with it. *)
Theorem deepMerge_key (target source : list (string * value)) (k : string) :
  NoDup source.*1 →
  get (deepMerge (VObj target) (VObj source)) k =
  match get (VObj source) k with
  | VUndefined => get (VObj target) k
  | VObj _ as sv => deepMerge (or_else (get (VObj target) k) (VObj [])) sv
  | sv => sv
  end.
Proof.
  intros Hnd. rewrite deepMerge_object. unfold get at 1 2 3. simpl own_props.
  destruct (assoc k source) as [sv|] eqn:Hk.
  - rewrite (for_in_visited
               (fun key sv => deepMerge (or_else (get (VObj target) key) (VObj [])) sv)
               k sv) by done.
    rewrite descends_object. by destruct sv.
  - rewrite (for_in_untouched
               (fun key sv => deepMerge (or_else (get (VObj target) key) (VObj [])) sv)).
    + done.
    + by apply assoc_None_notin.
Qed.

Lemma deepMerge_key_witness :
  let target :=
    [("theme", VStr "light");
     ("ui", VObj [("primaryColor", VStr "#007bff"); ("backdrop", VBool true)])] in
  let source :=
    [("theme", VUndefined); ("ui", VObj [("primaryColor", VStr "#ff0000")])] in
  NoDup source.*1 ∧
  get (deepMerge (VObj target) (VObj source)) "theme" = VStr "light" ∧
  get (deepMerge (VObj target) (VObj source)) "ui" =
    VObj [("primaryColor", VStr "#ff0000"); ("backdrop", VBool true)].
Proof.
  intros target source.
  assert (Hnd : NoDup source.*1) by (apply (bool_decide_unpack _); vm_compute; exact I).
  split; [exact Hnd|].
  split; rewrite (deepMerge_key target source _ Hnd); reflexivity.
Defined.

End UtilsSpec.

(** ** The consent records of the widget *)
Module CookiePluginSpec.
Import JS CookiePlugin JSFacts.

(** The category map of the record the plugin holds (and has written to
    the cookie). *)
Definition saved_categories (p : Plugin) : value :=
  match consent p with
  | Some c => get c "categories"
  | None => VUndefined
  end.

(** The state of the last checkbox of the modal that carries [key]. *)
Definition last_checked (key : string) (inputs : list Checkbox) : option bool :=
  fold_left
    (fun found input =>
       if bool_decide (data_category input = Some key) then Some (checked input)
       else found)
    inputs None.

(** The user clicks the switches [keys], first to last. *)
Definition click_all (keys : list string) (p : Plugin) : Plugin :=
  fold_left (fun q key => click_switch key q) keys p.

(** The objects [typeof] calls objects: everything but [null] among
    them. *)
Definition is_object (v : value) : bool :=
  match v with
  | VObj _ | VArr _ => true
  | _ => false
  end.

(** C1 as stated: the records of [acceptAll] and [rejectAll] have
    essential true, and so has the record of [saveCustomPreferences],
    whatever the checkboxes of the modal say. *)
Definition every_record_has_essential : Prop :=
  ∀ (JSON_stringify : value → string) (now : Z) (p : Plugin),
    get (saved_categories (acceptAll JSON_stringify now p)) "essential" = VBool true ∧
    get (saved_categories (rejectAll JSON_stringify now p)) "essential" = VBool true ∧
    ∀ inputs : list Checkbox,
      modal p = Some inputs →
      get (saved_categories (saveCustomPreferences JSON_stringify now p)) "essential"
      = VBool true.

(** A configuration that makes the essential category optional. *)
Definition config_essential_optional : CookiePluginConfig :=
  {| enabled := true; autoShow := true; showOnScroll := false;
     categories :=
       [ ("essential",
          {| name := "Essential"; description := "Essential cookies";
             required := false; cookies := ["session"] |});
         ("analytics",
          {| name := "Analytics"; description := "Analytics cookies";
             required := false; cookies := ["_ga"] |}) ];
     texts := texts getDefaultConfig;
     cookieSettings_name := "ns-cookie-consent"; version := "1.0.0";
     onAccept := false; onReject := false; onSave := true |}.

Lemma collect_from_last key (inputs : list Checkbox) (acc : list (string * value))
    (found : option bool) :
  key ≠ "" →
  assoc key acc = VBool <$> found →
  assoc key
    (fold_left
       (fun cats input =>
          match data_category input with
          | Some category =>
              if negb (String.eqb category "")
              then assign category (VBool (checked input)) cats
              else cats
          | None => cats
          end) inputs acc)
  = VBool <$>
      fold_left
        (fun found input =>
           if bool_decide (data_category input = Some key) then Some (checked input)
           else found)
        inputs found.
Proof.
  intros Hkey. revert acc found.
  induction inputs as [|input inputs IH]; intros acc found Hacc; [done|].
  simpl. apply IH.
  destruct (data_category input) as [category|] eqn:Hcat.
  - case_bool_decide as Hk.
    + injection Hk as ->. apply String.eqb_neq in Hkey. rewrite Hkey. simpl.
      apply assoc_assign_eq.
    + destruct (negb (String.eqb category "")); [|done].
      rewrite assoc_assign_ne; [done|congruence].
  - by rewrite bool_decide_eq_false_2.
Qed.

Lemma collect_categories_last key inputs :
  key ≠ "" →
  assoc key (collect_categories inputs) = VBool <$> last_checked key inputs.
Proof. intros Hkey. by apply collect_from_last. Qed.

Lemma saved_categories_save JSON_stringify now p inputs key :
  modal p = Some inputs →
  get (saved_categories (saveCustomPreferences JSON_stringify now p)) key
  = default VUndefined (assoc key (collect_categories inputs)).
Proof.
  intros Hm. unfold saveCustomPreferences. rewrite Hm.
  unfold saved_categories. simpl. unfold get. simpl.
  by destruct (assoc key (collect_categories inputs)).
Qed.

(** The essential checkboxes of a modal are locked: checked and disabled. *)
Definition locked (key : string) (inputs : list Checkbox) : Prop :=
  Forall (fun input => data_category input = Some key →
                       checked input = true ∧ disabled input = true) inputs.

Lemma locked_toggle key k inputs :
  locked key inputs → locked key (map (toggle k) inputs).
Proof.
  unfold locked. rewrite Forall_map. intros Hl. eapply Forall_impl; [exact Hl|].
  intros input H. simpl. unfold toggle.
  destruct (bool_decide (data_category input = Some k) && negb (disabled input)) eqn:E;
    [|done].
  simpl. intros Hc. destruct (H Hc) as [_ Hd].
  rewrite Hd in E. by rewrite andb_false_r in E.
Qed.

Lemma toggle_category k input : data_category (toggle k input) = data_category input.
Proof. unfold toggle. by destruct (_ && _). Qed.

Lemma last_checked_locked key inputs found :
  locked key inputs →
  (found = Some true ∨ Exists (fun input => data_category input = Some key) inputs) →
  (found = Some true ∨ found = None ∨
   Exists (fun input => data_category input = Some key) inputs) →
  fold_left
    (fun found input =>
       if bool_decide (data_category input = Some key) then Some (checked input)
       else found)
    inputs found = Some true.
Proof.
  revert found. induction inputs as [|input inputs IH]; intros found Hl Hex _.
  - destruct Hex as [->|Hex]; [done|by apply Exists_nil in Hex].
  - apply Forall_cons in Hl as [Hhead Hl]. simpl.
    case_bool_decide as Hk.
    + destruct (Hhead Hk) as [-> _]. apply IH; auto.
    + apply IH; [done| |].
      * destruct Hex as [->|Hex]; [by left|].
        apply Exists_cons in Hex as [?|?]; [done|by right].
      * destruct Hex as [->|Hex]; [by left|].
        apply Exists_cons in Hex as [?|?]; [done|by right; right].
Qed.

Lemma modal_click_all keys p :
  modal (click_all keys p)
  = fold_left (fun m key => map (toggle key) <$> m) keys (modal p).
Proof.
  revert p. induction keys as [|key keys IH]; intros p; [done|].
  simpl. by rewrite IH.
Qed.

Lemma rendered_locked cfg current :
  (∀ cat, ("essential", cat) ∈ categories cfg → required cat = true) →
  locked "essential" (map (modal_checkbox current) (categories cfg)).
Proof.
  intros Hreq. unfold locked. rewrite Forall_map. apply Forall_forall.
  intros [key cat] Hin. simpl. intros [= ->].
  rewrite (Hreq cat Hin). done.
Qed.

Lemma rendered_has cfg current key :
  key ∈ (categories cfg).*1 →
  Exists (fun input => data_category input = Some key)
         (map (modal_checkbox current) (categories cfg)).
Proof.
  intros Hin. apply list_elem_of_fmap in Hin as [[k cat] [-> Hin]].
  apply Exists_exists. exists (modal_checkbox current (k, cat)). split.
  - apply list_elem_of_fmap. by exists (k, cat).
  - done.
Qed.

Lemma clicks_keep keys (inputs : list Checkbox) :
  locked "essential" inputs →
  Exists (fun input => data_category input = Some "essential") inputs →
  ∃ inputs',
    fold_left (fun m key => map (toggle key) <$> m) keys (Some inputs) = Some inputs' ∧
    locked "essential" inputs' ∧
    Exists (fun input => data_category input = Some "essential") inputs'.
Proof.
  revert inputs. induction keys as [|key keys IH]; intros inputs Hl Hex.
  - by exists inputs.
  - simpl. apply IH.
    + by apply locked_toggle.
    + apply Exists_exists in Hex as [input [Hin Hc]].
      apply Exists_exists. exists (toggle key input). split.
      * apply list_elem_of_fmap. by exists input.
      * by rewrite toggle_category.
Qed.

(** Case analysis on the next comparison of a key with a literal. *)
Ltac case_key :=
  match goal with
  | |- context [String.eqb ?k ?lit] =>
      let E := fresh "E" in
      destruct (String.eqb k lit) eqn:E;
      [apply String.eqb_eq in E; subst; by vm_compute | apply String.eqb_neq in E]
  end.

(** A key that differs from every entry of a literal list is not in it. *)
Ltac not_listed :=
  let Hin := fresh "Hin" in
  intros Hin;
  repeat (apply elem_of_cons in Hin as [?|Hin]; [done|]);
  by apply elem_of_nil in Hin.

(** C2. The record [acceptAll] produces has the four categories, all
    true; the record [rejectAll] produces has essential true and
    analytics, marketing and preferences false.  Each is the record the
    plugin then holds, the value written to the consent cookie, and the
    argument of the configured callback. *)
Theorem acceptAll_rejectAll_records (JSON_stringify : value → string) (now : Z)
    (p : Plugin) :
  let accepted :=
    ConsentData now (version (config p))
      [("essential", VBool true); ("analytics", VBool true);
       ("marketing", VBool true); ("preferences", VBool true)] in
  let rejected :=
    ConsentData now (version (config p))
      [("essential", VBool true); ("analytics", VBool false);
       ("marketing", VBool false); ("preferences", VBool false)] in
  (consent (acceptAll JSON_stringify now p) = Some accepted ∧
   cookies_jar (acceptAll JSON_stringify now p) !! cookieSettings_name (config p)
     = Some (JSON_stringify accepted) ∧
   (onAccept (config p) = true →
    callbacks (acceptAll JSON_stringify now p) = callbacks p ++ [OnAccept accepted]) ∧
   ∀ key, get (saved_categories (acceptAll JSON_stringify now p)) key =
          if bool_decide (key ∈ ["essential"; "analytics"; "marketing"; "preferences"])
          then VBool true else VUndefined) ∧
  (consent (rejectAll JSON_stringify now p) = Some rejected ∧
   cookies_jar (rejectAll JSON_stringify now p) !! cookieSettings_name (config p)
     = Some (JSON_stringify rejected) ∧
   (onReject (config p) = true →
    callbacks (rejectAll JSON_stringify now p) = callbacks p ++ [OnReject rejected]) ∧
   ∀ key, get (saved_categories (rejectAll JSON_stringify now p)) key =
          if bool_decide (key = "essential") then VBool true
          else if bool_decide (key ∈ ["analytics"; "marketing"; "preferences"])
          then VBool false else VUndefined).
Proof.
  intros accepted rejected. split.
  - split; [done|]. split; [apply lookup_insert_eq|]. split.
    + intros H. unfold acceptAll. simpl. by rewrite H.
    + intros key. unfold saved_categories. simpl. unfold get. simpl.
      repeat case_key.
      rewrite bool_decide_eq_false_2; [done|]. by not_listed.
  - split; [done|]. split; [apply lookup_insert_eq|]. split.
    + intros H. unfold rejectAll. simpl. by rewrite H.
    + intros key. unfold saved_categories. simpl. unfold get. simpl.
      repeat case_key.
      rewrite !bool_decide_eq_false_2; [done| |done]. by not_listed.
Qed.

(** C1, as stated, fails: with the essential category configured as not
    required, its switch is rendered unchecked and enabled, and saving
    the modal writes a record with essential false. *)
Lemma save_keeps_unchecked_essential : ¬ every_record_has_essential.
Proof.
  intros Hclaim.
  pose (p := showCustomizeModal (fun _ _ => [])
               (construct (fun _ => None) config_essential_optional ∅)).
  destruct (Hclaim (fun _ => "") 0 p) as (_ & _ & Hsave).
  specialize (Hsave
                [ {| data_category := Some "essential"; checked := false;
                     disabled := false |};
                  {| data_category := Some "analytics"; checked := false;
                     disabled := false |} ]
                eq_refl).
  vm_compute in Hsave. discriminate Hsave.
Qed.

(** C1, amended. The records of [acceptAll] and [rejectAll] have
    essential true.  [saveCustomPreferences] forces nothing: under every
    key it records the checked state of the last checkbox of the modal
    that carries the key.  When the configuration has an essential
    category and marks it required, and the keys, names, descriptions and
    texts it puts into the modal hold no markup character, the modal shows
    the switch of the category checked and disabled and holds no other
    checkbox for it, so whatever switches the user clicks the saved record
    has essential true. *)
Theorem essential_in_persisted_records (JSON_stringify : value → string)
    (querySelectorAll_checkboxes : CookiePluginConfig → option value → list Checkbox)
    (now : Z) (p : Plugin) (clicks : list string) :
  modal p = None →
  markup_free (config p) = true →
  "essential" ∈ (categories (config p)).*1 →
  (∀ cat, ("essential", cat) ∈ categories (config p) → required cat = true) →
  get (saved_categories (acceptAll JSON_stringify now p)) "essential" = VBool true ∧
  get (saved_categories (rejectAll JSON_stringify now p)) "essential" = VBool true ∧
  (∀ q inputs key,
     key ≠ "" → modal q = Some inputs →
     get (saved_categories (saveCustomPreferences JSON_stringify now q)) key
     = match last_checked key inputs with
       | Some b => VBool b
       | None => VUndefined
       end) ∧
  get (saved_categories
         (saveCustomPreferences JSON_stringify now
            (click_all clicks (showCustomizeModal querySelectorAll_checkboxes p))))
      "essential"
  = VBool true.
Proof.
  intros Hmodal Hplain Hhas Hreq.
  assert (Hsave : ∀ q inputs key,
            key ≠ "" → modal q = Some inputs →
            get (saved_categories (saveCustomPreferences JSON_stringify now q)) key
            = match last_checked key inputs with
              | Some b => VBool b
              | None => VUndefined
              end).
  { intros q inputs key Hkey Hq.
    rewrite (saved_categories_save _ _ _ inputs) by done.
    rewrite collect_categories_last by done.
    by destruct (last_checked key inputs). }
  split; [done|]. split; [done|]. split; [exact Hsave|].
  destruct (clicks_keep clicks
              (map (modal_checkbox (consent p)) (categories (config p))))
    as (inputs' & Hfold & Hlocked & Hex).
  { by apply rendered_locked. }
  { by apply rendered_has. }
  assert (Hm : modal (click_all clicks (showCustomizeModal querySelectorAll_checkboxes p))
               = Some inputs').
  { rewrite modal_click_all. unfold showCustomizeModal, modal_checkboxes.
    rewrite Hmodal, Hplain. exact Hfold. }
  rewrite (Hsave _ inputs') by done.
  unfold last_checked. rewrite last_checked_locked; auto.
Qed.

Lemma essential_in_persisted_records_witness :
  let p := construct (fun _ => None) getDefaultConfig ∅ in
  modal p = None ∧
  get (saved_categories
         (saveCustomPreferences (fun _ => "") 0
            (click_all ["essential"; "analytics"]
                       (showCustomizeModal (fun _ _ => []) p)))) "essential"
  = VBool true.
Proof.
  intros p. split; [reflexivity|].
  apply (essential_in_persisted_records (fun _ => "") (fun _ _ => []) 0 p
           ["essential"; "analytics"]).
  - reflexivity.
  - by vm_compute.
  - vm_compute. repeat constructor.
  - intros cat Hin. vm_compute in Hin.
    repeat (apply elem_of_cons in Hin as [Hin|Hin]; [by inversion Hin|]).
    by apply elem_of_nil in Hin.
Defined.

(** The reading of "identically to no stored consent": apart from the
    cookie jar itself, the plugin built over the jar is the plugin built
    over the jar without the consent cookie. *)
Definition same_start (p q : Plugin) : Prop :=
  consent p = consent q ∧ cookieBar p = cookieBar q ∧ modal p = modal q ∧
  scrollListener p = scrollListener q ∧ callbacks p = callbacks q.

(** An array under [categories] passes [isValidConsent]: it is truthy
    and its [typeof] is object. *)
Lemma array_categories_pass :
  isValidConsent
    (VObj [("timestamp", num 1700000000000); ("version", VStr "1.0.0");
           ("categories", VArr [])]) = true.
Proof. reflexivity. Qed.

(** C4. A consent cookie whose value does not parse, or parses to a
    value without a numeric [timestamp], a string [version] or an object
    under [categories], loads as no consent: [loadConsent] returns null
    without raising, the plugin starts as it does with no consent cookie,
    and the banner is shown whenever the plugin is enabled with
    [autoShow]. *)
Theorem malformed_consent_is_absent (JSON_parse : string → option value)
    (cfg : CookiePluginConfig) (jar : gmap string string) (raw : string) :
  jar !! cookieSettings_name cfg = Some raw →
  (JSON_parse raw = None ∨
   ∃ v, JSON_parse raw = Some v ∧
        (typeof (get v "timestamp") ≠ TNumber ∨
         typeof (get v "version") ≠ TString ∨
         is_object (get v "categories") = false)) →
  loadConsent JSON_parse cfg jar = None ∧
  same_start (construct JSON_parse cfg jar)
             (construct JSON_parse cfg (delete (cookieSettings_name cfg) jar)) ∧
  cookieBar (construct JSON_parse cfg jar) = enabled cfg && autoShow cfg.
Proof.
  intros Hraw Hbad.
  assert (Hload : loadConsent JSON_parse cfg jar = None).
  { unfold loadConsent. rewrite Hraw.
    destruct (negb (String.eqb raw "")); [|done].
    destruct Hbad as [->|(v & -> & Hv)]; [done|].
    assert (isValidConsent v = false) as ->; [|done].
    unfold isValidConsent.
    destruct Hv as [Hv|[Hv|Hv]].
    - destruct (typeof (get v "timestamp")); (done || by rewrite ?andb_false_r).
    - destruct (typeof (get v "version")); (done || by rewrite ?andb_false_r).
    - destruct (get v "categories"); (done || by rewrite ?andb_false_r). }
  assert (Hnone : loadConsent JSON_parse cfg (delete (cookieSettings_name cfg) jar) = None).
  { unfold loadConsent. by rewrite lookup_delete_eq. }
  split; [exact Hload|].
  unfold construct, same_start, init, hasConsent. simpl. rewrite Hload, Hnone.
  destruct (enabled cfg), (autoShow cfg); simpl; done.
Qed.

Lemma malformed_consent_is_absent_witness :
  let jar : gmap string string := {[ "ns-cookie-consent" := "{not json" ]} in
  let jar' : gmap string string := {[ "ns-cookie-consent" := "{}" ]} in
  (loadConsent (fun _ => None) getDefaultConfig jar = None ∧
   cookieBar (construct (fun _ => None) getDefaultConfig jar) = true) ∧
  (loadConsent (fun _ => Some (VObj [])) getDefaultConfig jar' = None ∧
   cookieBar (construct (fun _ => Some (VObj [])) getDefaultConfig jar') = true).
Proof.
  intros jar jar'. split.
  - destruct (malformed_consent_is_absent (fun _ => None) getDefaultConfig jar
                "{not json") as (H1 & _ & H3).
    + reflexivity.
    + left. reflexivity.
    + split; [exact H1|exact H3].
  - destruct (malformed_consent_is_absent (fun _ => Some (VObj [])) getDefaultConfig jar'
                "{}") as (H1 & _ & H3).
    + reflexivity.
    + right. exists (VObj []). split; [reflexivity|]. left. discriminate.
    + split; [exact H1|exact H3].
Defined.

End CookiePluginSpec.

(** ** The checks of the auto-blocker *)
Module AutoBlockerSpec.
Import AutoBlocker.

(** C3 as stated, for a consent state [consented] over category names:
    an enabled blocker answers "block" exactly for the URLs that contain
    the pattern of an enabled rule of the resource type whose category is
    not consented. *)
Definition blocks_until_consent : Prop :=
  ∀ (consented : string → bool) (b : Blocker) (ty : RuleType) (url : string),
    isEnabled b = true →
    (shouldBlock ty b url = true ↔
     ∃ rule, rule ∈ rules b ∧ enabled rule = true ∧ type rule = ty ∧
             includes url (pattern rule) = true ∧
             consented (category rule) = false).

Lemma RuleType_eqb_eq a b : RuleType_eqb a b = true ↔ a = b.
Proof. destruct a, b; simpl; split; congruence. Qed.

(** C3, as stated, fails: the check never looks at consent.  With every
    category consented, the enabled blocker still blocks the Google
    Analytics script. *)
Lemma consent_does_not_unblock : ¬ blocks_until_consent.
Proof.
  intros Hclaim.
  destruct (Hclaim (fun _ => true) (enable create) script
              "https://www.google-analytics.com/analytics.js" eq_refl) as [Hblock _].
  destruct (Hblock eq_refl) as (rule & _ & _ & _ & _ & Hconsent).
  discriminate Hconsent.
Qed.

(** C3, amended. While blocking is enabled, the check for a resource
    type answers "block" exactly for the URLs that contain the pattern of
    an enabled rule of that type; the category of the rule and the
    consent given for it play no part.  The check lets the URL through
    again once blocking is disabled. *)
Theorem shouldBlock_iff_enabled_rule (b : Blocker) (ty : RuleType) (url : string) :
  isEnabled b = true →
  (shouldBlock ty b url = true ↔
   ∃ rule, rule ∈ rules b ∧ enabled rule = true ∧ type rule = ty ∧
           includes url (pattern rule) = true) ∧
  shouldBlock ty (disable b) url = false.
Proof.
  intros Hon. split; [|done].
  unfold shouldBlock. rewrite Hon. simpl. rewrite existsb_exists. split.
  - intros (rule & Hin & Hrule). exists rule.
    apply andb_prop in Hrule as [Hrule Hinc]. apply andb_prop in Hrule as [Hen Hty].
    apply RuleType_eqb_eq in Hty. by rewrite <- list_elem_of_In in Hin.
  - intros (rule & Hin & Hen & Hty & Hinc). exists rule. split.
    + by apply list_elem_of_In.
    + rewrite Hen, Hinc. simpl. rewrite andb_true_r. by apply RuleType_eqb_eq.
Qed.

Lemma shouldBlock_iff_enabled_rule_witness :
  shouldBlock script (enable create) "https://static.hotjar.com/c/hotjar.js" = true ∧
  shouldBlock script (disable (enable create)) "https://static.hotjar.com/c/hotjar.js"
  = false.
Proof.
  destruct (shouldBlock_iff_enabled_rule (enable create) script
              "https://static.hotjar.com/c/hotjar.js" eq_refl) as [[_ Hblock] Hoff].
  split; [|exact Hoff].
  apply Hblock.
  exists {| id := "hotjar"; name := "Hotjar"; pattern := "static.hotjar.com";
            type := script; category := "analytics"; enabled := true;
            description := "Blocks Hotjar tracking" |}.
  split; [|by vm_compute].
  vm_compute. do 3 apply list_elem_of_further. apply list_elem_of_here.
Defined.

(** The setter that [applyBlocking] installs asks the script element, not
    the blocker, for [shouldBlockScript]; an element the document creates
    has no such method, and its [src] is assigned whatever the rules
    say. *)
Lemma set_src_created_script (url : string) :
  src (set_src createElement_script url) = url.
Proof. reflexivity. Qed.

End AutoBlockerSpec.

(** ** The TTL cache of the service *)
Module CacheSpec.
Import JS Cache.

Lemma get_hit_fresh svc key now v :
  (get svc key now).1 = v → v ≠ VNull →
  ∃ item, cache svc !! key = Some item ∧ data item = v ∧ now <= expires item.
Proof.
  unfold get. destruct (negb (isEnabled svc)); [simpl; congruence|].
  destruct (cache svc !! key) as [item|]; [|simpl; congruence].
  case_bool_decide as Hexp; [simpl; congruence|].
  simpl. intros <- _. exists item. repeat split. lia.
Qed.

(** C9. With caching enabled, a [get] more than [ttl] seconds after the
    [set] of a key returns null and leaves no entry for the key in the map;
    a [get] up to [ttl] seconds after the [set] returns the data that was
    set and changes nothing.  With caching disabled, [get] returns null
    and [set] stores nothing.  In every state, what [get] returns other
    than null is the data of an entry that has not expired. *)
Theorem cache_serves_only_fresh (svc : CacheService) (key : string) (d : value)
    (ttl : option Z) (t_set t_get : Z) :
  let seconds := default (config_ttl svc) ttl in
  let svc' := set svc key d ttl t_set in
  (isEnabled svc = true →
   (t_get > t_set + seconds * 1000 →
    (get svc' key t_get).1 = VNull ∧ cache (get svc' key t_get).2 !! key = None) ∧
   (t_get <= t_set + seconds * 1000 → get svc' key t_get = (d, svc'))) ∧
  (isEnabled svc = false → get svc key t_get = (VNull, svc) ∧ svc' = svc) ∧
  (∀ v, (get svc key t_get).1 = v → v ≠ VNull →
        ∃ item, cache svc !! key = Some item ∧ data item = v ∧ t_get <= expires item).
Proof.
  intros seconds svc'. split; [|split].
  - intros Hon. unfold svc', set, get, isEnabled in *. rewrite Hon. simpl.
    rewrite Hon. simpl. rewrite lookup_insert_eq. simpl. fold seconds. split.
    + intros Hlate. rewrite bool_decide_eq_true_2 by lia. simpl.
      split; [done|]. apply lookup_delete_eq.
    + intros Hfresh. rewrite bool_decide_eq_false_2 by lia. done.
  - intros Hoff. unfold svc', set, get, isEnabled in *. by rewrite Hoff.
  - apply get_hit_fresh.
Qed.

Lemma cache_serves_only_fresh_witness :
  let svc := {| cache := ∅; config_enabled := true; config_ttl := 300 |} in
  let off := {| cache := ∅; config_enabled := false; config_ttl := 300 |} in
  (get (set svc "cookie-config-en" (VStr "doc") None 1000) "cookie-config-en" 301001).1
    = VNull ∧
  get (set svc "cookie-config-en" (VStr "doc") None 1000) "cookie-config-en" 301000
    = (VStr "doc", set svc "cookie-config-en" (VStr "doc") None 1000) ∧
  get off "cookie-config-en" 5 = (VNull, off).
Proof.
  intros svc off.
  destruct (cache_serves_only_fresh svc "cookie-config-en" (VStr "doc") None 1000 301001)
    as [Hon _].
  destruct (Hon eq_refl) as [Hlate _].
  destruct (cache_serves_only_fresh svc "cookie-config-en" (VStr "doc") None 1000 301000)
    as [Hon' _].
  destruct (Hon' eq_refl) as [_ Hfresh].
  destruct (cache_serves_only_fresh off "cookie-config-en" (VStr "doc") None 1000 5)
    as [_ [Hoff _]].
  split; [apply Hlate; simpl; lia|].
  split; [apply Hfresh; simpl; lia|].
  apply Hoff. reflexivity.
Defined.

End CacheSpec.

(** ** The configuration cache of the widget *)
Module CookiePluginWithBackendSpec.
Import JS CookiePluginWithBackend.







End CookiePluginWithBackendSpec.

(** ** The request budget *)
Module MiddlewareSpec.
Import JS Middleware.

(** The requests that count against the budget of [clientIp]: its
    requests to routes that run [rateLimitMiddleware]. *)
Definition counts_for (clientIp : string) (req : Route * string * Z) : bool :=
  bool_decide (req.1.2 = clientIp) && bool_decide (rateLimit ∈ route_chain req.1.1).

(** Their arrival times, oldest first. *)
Fixpoint client_times (clientIp : string) (requests : list (Route * string * Z))
  : list Z :=
  match requests with
  | [] => []
  | req :: rest =>
      if counts_for clientIp req then req.2 :: client_times clientIp rest
      else client_times clientIp rest
  end.

(** What they were answered, out of the outcomes of the whole run. *)
Fixpoint answers_to (clientIp : string) (requests : list (Route * string * Z))
    (outcomes : list Outcome) : list (Z * Outcome) :=
  match requests, outcomes with
  | req :: rest, o :: os =>
      if counts_for clientIp req then (req.2, o) :: answers_to clientIp rest os
      else answers_to clientIp rest os
  | _, _ => []
  end.

(** The 429 answer with its [retryAfter]. *)
Definition too_many_requests (retryAfter : Z) : Outcome :=
  respond
    {| status := 429;
       json := VObj [("success", VBool false);
                     ("error", VStr "Too many requests. Please try again later.");
                     ("retryAfter", num retryAfter)] |}.

(** [rateLimitMiddleware] seen from one client: its outcome and the
    entry of the client afterwards depend on the entry of the client
    only. *)
Definition client_step (cfg : RateLimit) (entry : option ClientData) (now : Z)
  : Outcome * option ClientData :=
  let clientData := default {| count := 0; resetTime := now + windowMs cfg |} entry in
  let reset := bool_decide (now > resetTime clientData) in
  let clientData :=
    if reset then {| count := 0; resetTime := now + windowMs cfg |} else clientData in
  if bool_decide (count clientData >= max cfg) then
    (too_many_requests (ceil_div (resetTime clientData - now) 1000),
     if reset && bool_decide (is_Some entry) then Some clientData else entry)
  else
    (next, Some {| count := count clientData + 1; resetTime := resetTime clientData |}).

Fixpoint client_run (cfg : RateLimit) (entry : option ClientData) (times : list Z)
  : list (Z * Outcome) :=
  match times with
  | [] => []
  | t :: rest =>
      (t, (client_step cfg entry t).1) :: client_run cfg (client_step cfg entry t).2 rest
  end.

Lemma middleware_own cfg store clientIp now :
  (rateLimitMiddleware cfg store clientIp now).1 = (client_step cfg (store !! clientIp) now).1 ∧
  (rateLimitMiddleware cfg store clientIp now).2 !! clientIp
  = (client_step cfg (store !! clientIp) now).2.
Proof.
  unfold rateLimitMiddleware, client_step.
  destruct (bool_decide (count _ >= max cfg)); simpl.
  - split; [done|].
    destruct (bool_decide (now > _) && bool_decide (is_Some (store !! clientIp)));
      [apply lookup_insert_eq|done].
  - split; [done|]. apply lookup_insert_eq.
Qed.

Lemma middleware_other cfg store clientIp other now :
  other ≠ clientIp →
  (rateLimitMiddleware cfg store other now).2 !! clientIp = store !! clientIp.
Proof.
  intros Hne. unfold rateLimitMiddleware.
  destruct (bool_decide (count _ >= max cfg)); simpl.
  - destruct (bool_decide (now > _) && bool_decide (is_Some (store !! other)));
      [by apply lookup_insert_ne|done].
  - by apply lookup_insert_ne.
Qed.

Lemma serve_cons cfg store r clientIp now rest :
  serve cfg store ((r, clientIp, now) :: rest) =
  ((route_rateLimit cfg r store clientIp now).1
     :: (serve cfg (route_rateLimit cfg r store clientIp now).2 rest).1,
   (serve cfg (route_rateLimit cfg r store clientIp now).2 rest).2).
Proof.
  cbn [serve]. destruct (route_rateLimit cfg r store clientIp now) as [o store'].
  cbn [fst snd]. by destruct (serve cfg store' rest).
Qed.

Lemma serve_answers cfg clientIp requests store :
  answers_to clientIp requests (serve cfg store requests).1
  = client_run cfg (store !! clientIp) (client_times clientIp requests).
Proof.
  revert store. induction requests as [|[[r other] now] rest IH]; intros store; [done|].
  rewrite serve_cons. cbn [answers_to client_times fst snd].
  rewrite IH. unfold counts_for, route_rateLimit. cbn [fst snd].
  case_bool_decide as Hip; cbn [andb].
  - subst other. case_bool_decide as Hr; cbn [fst snd].
    + destruct (middleware_own cfg store clientIp now) as [Ho Hs].
      cbn [client_run]. by rewrite Ho, Hs.
    + done.
  - case_bool_decide; cbn [snd]; [|done].
    by rewrite middleware_other.
Qed.





End MiddlewareSpec.

(** ** Validation of a configuration and the admin write path *)
Module ControllersSpec.
Import JS Validation Controllers.

(** A category, the texts and a whole configuration as an admin would
    send them, with the language, the primary colour and the enabled flag
    left open. *)
Definition a_category (label : string) : value :=
  VObj [("name", VStr label); ("description", VStr "What these cookies do");
        ("required", VBool false); ("cookies", VArr [VStr "_ga"])].

Definition some_texts : value :=
  VObj [("title", VStr "Cookie Consent"); ("description", VStr "We use cookies.");
        ("acceptAll", VStr "Accept All"); ("rejectAll", VStr "Reject All");
        ("customize", VStr "Customize"); ("save", VStr "Save Preferences");
        ("close", VStr "Close"); ("moreInfo", VStr "More Information");
        ("cookiePolicy", VStr "Cookie Policy"); ("privacyPolicy", VStr "Privacy Policy")].

Definition a_config (lang : string) (primaryColor enabled : value) : value :=
  VObj [("language", VStr lang); ("texts", some_texts);
        ("categories",
         VObj [("essential", a_category "Essential"); ("analytics", a_category "Analytics");
               ("marketing", a_category "Marketing");
               ("preferences", a_category "Preferences")]);
        ("ui", VObj [("primaryColor", primaryColor); ("secondaryColor", VStr "#6c757d")]);
        ("cookieSettings", VObj [("sameSite", VStr "Lax")]);
        ("enabled", enabled)].

(** A service with caching on, nothing cached and nothing stored. *)
Definition empty_service : Service :=
  {| cacheService := {| Cache.cache := ∅; Cache.config_enabled := true;
                        Cache.config_ttl := 300 |};
     CookieConfig := [] |}.

Lemma parse_fields_issue {S} (parse_field : S → list string → value → list Issue * value)
    path v shape key field i :
  (key, field) ∈ shape →
  i ∈ (parse_field field (path ++ [key]) (get v key)).1 →
  i ∈ (parse_fields parse_field path v shape).1.
Proof.
  induction shape as [|[key' field'] shape IH]; intros Hin Hi; [by inversion Hin|].
  cbn [parse_fields].
  destruct (parse_field field' (path ++ [key']) (get v key')) as [issues x'] eqn:Hhead.
  destruct (parse_fields parse_field path v shape) as [issues' rest'] eqn:Htail.
  cbn [fst]. apply elem_of_app.
  apply elem_of_cons in Hin as [Heq|Hin].
  - injection Heq as <- <-. left. by rewrite Hhead in Hi.
  - right. by apply IH.
Qed.

Lemma parse_object_issue shape path props key field i :
  (key, field) ∈ shape →
  i ∈ (parse field (path ++ [key]) (get (VObj props) key)).1 →
  i ∈ (parse (z_object shape) path (VObj props)).1.
Proof.
  intros Hin Hi. cbn [parse].
  pose proof (parse_fields_issue parse path (VObj props) shape key field i Hin Hi) as H.
  by destruct (parse_fields parse path (VObj props) shape).
Qed.

Lemma parse_color_issue path d color :
  color ≠ VUndefined →
  (∀ str, color = VStr str → re_hex_color str = false) →
  ∃ i, issue_path i = path ∧
       i ∈ (parse (z_default (z_string [sregex re_hex_color]) d) path color).1.
Proof.
  intros Hdef Hbad. destruct color as [| |b|x|str|items|props]; try done;
    try (eexists; split; [|cbn; apply list_elem_of_here]; done).
  cbn. rewrite (Hbad str eq_refl). eexists. split; [|cbn; apply list_elem_of_here]. done.
Qed.

Lemma validateConfig_issue config i :
  i ∈ (parse cookieConfigSchema [] config).1 →
  isValid (validateConfig config) = false ∧
  {| field := join_dot (issue_path i); message := issue_message i;
     value_received := issue_received i |}
  ∈ errors (validateConfig config).
Proof.
  unfold validateConfig.
  destruct (parse cookieConfigSchema [] config) as [issues output].
  cbn [fst]. intros Hi. destruct issues as [|i0 issues]; [by inversion Hi|].
  split; [done|]. cbn [errors].
  apply (list_elem_of_fmap_2
           (fun i => {| field := join_dot (issue_path i); message := issue_message i;
                        value_received := issue_received i |})).
  exact Hi.
Qed.

(** C6. An upsert whose body has a [ui.primaryColor] that is present and
    is not a string of [#] and six hexadecimal digits ends in a
    [ValidationError] (status 400) whose details hold an entry for the
    field [ui.primaryColor], and the service state (the stored documents
    and the cache) is the one before the request. *)
Theorem invalid_primaryColor_rejected (persisted : value → option value)
    (language : string) (user : value) (s : Service)
    (props uiprops : list (string * value)) :
  get (VObj props) "ui" = VObj uiprops →
  get (VObj uiprops) "primaryColor" ≠ VUndefined →
  (∀ str, get (VObj uiprops) "primaryColor" = VStr str → re_hex_color str = false) →
  ∃ errs e,
    createOrUpdateConfig persisted language (VObj props) user s
    = (next_error (api_error (ValidationError "Invalid configuration format" errs)), s) ∧
    e ∈ errs ∧ field e = "ui.primaryColor" ∧
    errorHandlingMiddleware
      (api_error (ValidationError "Invalid configuration format" errs)) = (400, errs).
Proof.
  intros Hui Hdef Hbad.
  destruct (parse_color_issue ["ui"; "primaryColor"] (VStr "#007bff") _ Hdef Hbad)
    as (i & Hpath & Hissue).
  assert (Hin : i ∈ (parse cookieConfigSchema [] (VObj props)).1).
  { unfold cookieConfigSchema.
    apply (parse_object_issue _ [] props "ui" uiConfigSchema).
    - do 5 apply list_elem_of_further. apply list_elem_of_here.
    - rewrite Hui. unfold uiConfigSchema.
      apply (parse_object_issue _ ["ui"] uiprops "primaryColor"
               (z_default (z_string [sregex re_hex_color]) (VStr "#007bff"))).
      + apply list_elem_of_here.
      + exact Hissue. }
  apply validateConfig_issue in Hin as [Hinvalid Herr].
  eexists (errors (validateConfig (VObj props))), _.
  unfold createOrUpdateConfig. rewrite Hinvalid.
  split; [done|]. split; [exact Herr|]. split; [|done].
  cbn. by rewrite Hpath.
Qed.

Lemma invalid_primaryColor_rejected_witness :
  ∃ errs e,
    createOrUpdateConfig Some "en" (a_config "en" (VStr "blue") (VBool true))
                         (VStr "admin-1") empty_service
    = (next_error (api_error (ValidationError "Invalid configuration format" errs)),
       empty_service) ∧
    e ∈ errs ∧ field e = "ui.primaryColor" ∧
    errorHandlingMiddleware
      (api_error (ValidationError "Invalid configuration format" errs)) = (400, errs).
Proof.
  unfold a_config.
  apply (invalid_primaryColor_rejected Some "en" (VStr "admin-1") empty_service _
           [("primaryColor", VStr "blue"); ("secondaryColor", VStr "#6c757d")]).
  - reflexivity.
  - discriminate.
  - intros str Hstr. injection Hstr as <-. reflexivity.
Defined.

Lemma matches_language_enabled lang doc :
  matches [("language", VStr lang); ("enabled", VBool true)] doc = true →
  matches [("language", VStr lang)] doc = true.
Proof.
  unfold matches. cbn [forallb]. intros H.
  apply andb_prop in H as [-> _]. done.
Qed.

Lemma findOne_replaced lang (coll : list value) i existing config :
  findOne [("language", VStr lang)] coll = Some (i, existing) →
  matches [("language", VStr lang); ("enabled", VBool true)] config = true →
  findOne [("language", VStr lang); ("enabled", VBool true)] (<[i := config]> coll)
  = Some (i, config).
Proof.
  unfold findOne. intros Hfound Hconfig.
  apply list_find_Some in Hfound as (Hi & _ & Hfirst).
  apply list_find_Some. split; [|split].
  - apply list_lookup_insert_eq. by eapply lookup_lt_Some.
  - exact Hconfig.
  - intros j y Hj Hlt Hy. rewrite list_lookup_insert_ne in Hj by lia.
    apply (Hfirst j y Hj Hlt). by apply matches_language_enabled.
Qed.

Lemma findOne_appended lang (coll : list value) config :
  findOne [("language", VStr lang)] coll = None →
  matches [("language", VStr lang); ("enabled", VBool true)] config = true →
  findOne [("language", VStr lang); ("enabled", VBool true)] (coll ++ [config])
  = Some (length coll, config).
Proof.
  unfold findOne. intros Hnone Hconfig.
  apply list_find_None in Hnone.
  apply list_find_Some. split; [|split].
  - rewrite lookup_app_r by lia. by rewrite Nat.sub_diag.
  - exact Hconfig.
  - intros j y Hj Hlt Hy. rewrite lookup_app_l in Hj by lia.
    rewrite Forall_forall in Hnone.
    apply (Hnone y); [by eapply list_elem_of_lookup_2|].
    by apply matches_language_enabled.
Qed.

Lemma get_after_evict svc key now :
  Cache.isEnabled svc = true →
  Cache.get (Cache.delete svc key) key now = (VNull, Cache.delete svc key).
Proof.
  intros Hon. unfold Cache.get, Cache.delete, Cache.isEnabled in *.
  rewrite Hon. simpl. rewrite Hon. simpl. by rewrite lookup_delete_eq.
Qed.

(** The path on which the eviction works: when an upsert succeeds, the
    cache entry under the key of that request is gone; and when the
    document it wrote is enabled and carries the lower-cased language of
    the request, a read under the same spelling of the parameter that
    follows does not answer from the cache: it returns the written
    document, read from the store. *)
Theorem upsert_then_get_enabled_document (persisted : value → option value)
    (language : string) (configData user : value) (now : Z) (s s' : Service)
    (r : ApiResponse) :
  createOrUpdateConfig persisted language configData user s = (res_json r, s') →
  JS.get (data r) "language" = VStr (toLowerCase language) →
  JS.get (data r) "enabled" = VBool true →
  (Cache.isEnabled (cacheService s) = true →
   Cache.cache (cacheService s') !! ("cookie-config-" +:+ language) = None) ∧
  ∃ s'', getConfigByLanguage language now s'
         = (res_json {| success := true; data := data r; language := language;
                        source := Some from_database |}, s'').
Proof.
  intros Hput Hlang Hen.
  assert (Hmatch : matches [("language", VStr (toLowerCase language));
                            ("enabled", VBool true)] (data r) = true).
  { unfold matches. cbn [forallb]. rewrite Hlang, Hen. cbn.
    by rewrite String.eqb_refl. }
  unfold createOrUpdateConfig in Hput.
  destruct (negb (isValid (validateConfig configData))); [done|].
  set (q := [("language", VStr (toLowerCase language))]) in Hput.
  assert (Hstore :
    ∃ coll,
      s' = {| cacheService :=
                if Cache.isEnabled (cacheService s)
                then Cache.delete (cacheService s) ("cookie-config-" +:+ language)
                else cacheService s;
              CookieConfig := coll |} ∧
      ∃ i, findOne [("language", VStr (toLowerCase language)); ("enabled", VBool true)] coll
           = Some (i, data r)).
  { destruct (findOne q (CookieConfig s)) as [[i existing]|] eqn:Hfind.
    - destruct (persisted _) as [config|]; [|done].
      destruct (language_free _ _ config); [|done].
      injection Hput as <- <-. eexists. split; [done|]. exists i.
      by apply (findOne_replaced _ _ _ existing).
    - destruct (persisted _) as [config|]; [|done].
      destruct (language_free _ _ config); [|done].
      injection Hput as <- <-. eexists. split; [done|]. eexists.
      by apply findOne_appended. }
  destruct Hstore as (coll & -> & i & Hfound). split.
  - intros Hon. cbn. rewrite Hon. unfold Cache.delete, Cache.isEnabled in *.
    rewrite Hon. cbn. apply lookup_delete_eq.
  - unfold getConfigByLanguage. cbn [cacheService CookieConfig].
    destruct (Cache.isEnabled (cacheService s)) eqn:Hon.
    + assert (Hon' : Cache.isEnabled
                       (Cache.delete (cacheService s) ("cookie-config-" +:+ language))
                     = true).
      { unfold Cache.delete, Cache.isEnabled in *. by rewrite Hon. }
      rewrite Hon'. rewrite get_after_evict by done. cbn [truthy andb].
      rewrite Hfound. rewrite Hon'. eexists. reflexivity.
    + rewrite Hon. cbn [andb]. rewrite Hfound. rewrite Hon. eexists. reflexivity.
Qed.

Lemma upsert_then_get_enabled_document_witness :
  let body := a_config "en" (VStr "#007bff") (VBool true) in
  let put := createOrUpdateConfig Some "en" body (VStr "admin-1") empty_service in
  ∃ r s' s'',
    put = (res_json r, s') ∧
    JS.get (data r) "enabled" = VBool true ∧
    getConfigByLanguage "en" 1000 s'
    = (res_json {| success := true; data := data r; language := "en";
                   source := Some from_database |}, s'').
Proof.
  intros body put.
  destruct put as [[r|e] s'] eqn:E; [|vm_compute in E; discriminate E].
  assert (Hlang : JS.get (data r) "language" = VStr (toLowerCase "en")).
  { vm_compute in E. by injection E as <- <-. }
  assert (Hen : JS.get (data r) "enabled" = VBool true).
  { vm_compute in E. by injection E as <- <-. }
  destruct (upsert_then_get_enabled_document Some "en" body (VStr "admin-1") 1000
              empty_service s' r E Hlang Hen) as [_ [s'' Hget]].
  exists r, s', s''. split; [reflexivity|]. split; [exact Hen|exact Hget].
Defined.

(** C7 fails on the code.  The eviction and the cache lookup both use the
    language parameter as it was sent, while the store is keyed by its
    lower case.  With the configuration of [en] stored and cached by a
    read at time 0, an upsert sent as [EN] (the admin route does not run
    [validateLanguage]) replaces the stored document of [en] and evicts
    the key of [EN] only; the read of [en] at 1000 ms, within the 300 s
    of the entry, is answered from the cache with the document from
    before the upsert, while the store holds the new one. *)
Lemma upsert_in_other_case_leaves_cached_entry :
  let v1 := a_config "en" (VStr "#111111") (VBool true) in
  let v2 := a_config "en" (VStr "#222222") (VBool true) in
  let s0 := (createOrUpdateConfig Some "en" v1 (VStr "admin-1") empty_service).2 in
  let s1 := (getConfigByLanguage "en" 0 s0).2 in
  let s2 := (createOrUpdateConfig Some "EN" v2 (VStr "admin-1") s1).2 in
  (∃ r, (getConfigByLanguage "en" 1000 s2).1 = res_json r ∧
        source r = Some from_cache ∧
        JS.get (JS.get (data r) "ui") "primaryColor" = VStr "#111111") ∧
  (∃ d, CookieConfig s2 = [d] ∧
        JS.get (JS.get d "ui") "primaryColor" = VStr "#222222").
Proof.
  split.
  - eexists. split; [vm_compute; reflexivity|]. split; reflexivity.
  - eexists. split; [vm_compute; reflexivity|]. reflexivity.
Qed.

End ControllersSpec.

(** ** Substrings *)
Module IncludesFacts.
Import AutoBlocker.

Lemma app_cons (x : ascii) (a b : string) : String x a +:+ b = String x (a +:+ b).
Proof. reflexivity. Qed.

Lemma app_nil (b : string) : "" +:+ b = b.
Proof. reflexivity. Qed.

Lemma append_assoc (a b c : string) : (a +:+ b) +:+ c = a +:+ (b +:+ c).
Proof. induction a as [|x a IH]; [done|]. by rewrite !app_cons, IH. Qed.

Lemma prefix_spec (p s : string) :
  String.prefix p s = true ↔ ∃ post, s = p +:+ post.
Proof.
  revert p. induction s as [|c s IH]; intros p.
  - destruct p as [|a p]; simpl.
    + split; [by exists ""|done].
    + split; [done|]. intros [post H]. rewrite app_cons in H. discriminate H.
  - destruct p as [|a p]; simpl.
    + split; [by exists (String c s)|done].
    + destruct (ascii_dec a c) as [->|Hne].
      * rewrite IH. split; intros [post H]; exists post.
        -- by rewrite app_cons, H.
        -- rewrite app_cons in H. by injection H.
      * split; [done|]. intros [post H]. rewrite app_cons in H.
        injection H as H1 H2. congruence.
Qed.

Lemma includes_spec (url pat : string) :
  includes url pat = true ↔ ∃ pre post, url = pre +:+ pat +:+ post.
Proof.
  induction url as [|c url IH].
  - cbn [includes]. rewrite orb_false_r, prefix_spec. split.
    + intros [post H]. by exists "", post.
    + intros (pre & post & H). destruct pre; [by exists post|].
      rewrite app_cons in H. discriminate H.
  - cbn [includes]. rewrite orb_true_iff, prefix_spec, IH. split.
    + intros [[post H]|(pre & post & H)].
      * by exists "", post.
      * exists (String c pre), post. by rewrite app_cons, H.
    + intros (pre & post & H). destruct pre as [|x pre].
      * left. by exists post.
      * right. rewrite app_cons in H. injection H as _ H. by exists pre, post.
Qed.

Lemma includes_trans (url a b : string) :
  includes url a = true → includes a b = true → includes url b = true.
Proof.
  rewrite !includes_spec. intros (pre & post & ->) (pre' & post' & ->).
  exists (pre +:+ pre'), (post' +:+ post). by rewrite !append_assoc.
Qed.

Lemma includes_empty (url : string) : includes url "" = true.
Proof. apply includes_spec. by exists "", url. Qed.

End IncludesFacts.

(** ** The rules of the auto-blocker *)
Module AutoBlockerRules.
Import AutoBlocker IncludesFacts.

Lemma shouldBlock_exists (b : Blocker) (ty : RuleType) (url : string) :
  shouldBlock ty b url = true ↔
  isEnabled b = true ∧
  ∃ rule, rule ∈ rules b ∧ enabled rule = true ∧ type rule = ty ∧
          includes url (pattern rule) = true.
Proof.
  unfold shouldBlock. rewrite andb_true_iff, existsb_exists.
  split; intros [Hon (rule & Hin & Hrule)]; (split; [done|]); exists rule.
  - apply andb_prop in Hrule as [Hrule Hinc]. apply andb_prop in Hrule as [Hen Hty].
    rewrite <- list_elem_of_In in Hin. by destruct (type rule), ty.
  - destruct Hrule as (Hen & <- & Hinc). rewrite list_elem_of_In in Hin.
    split; [done|]. rewrite Hen, Hinc. by destruct (type rule).
Qed.

(** X1. A rule matches a URL when the URL can be cut into a head, the
    pattern of the rule and a tail: the comparison is case-sensitive and
    looks at the whole URL.  An enabled blocker blocks exactly the URLs
    that an enabled rule of the type matches in this way, so that an
    enabled rule with the empty pattern blocks every URL of its type. *)
Theorem shouldBlock_substring (b : Blocker) (ty : RuleType) (url : string) :
  isEnabled b = true →
  (shouldBlock ty b url = true ↔
   ∃ rule pre post, rule ∈ rules b ∧ enabled rule = true ∧ type rule = ty ∧
                    url = pre +:+ pattern rule +:+ post) ∧
  (∀ rule, rule ∈ rules b → enabled rule = true → type rule = ty →
           pattern rule = "" → shouldBlock ty b url = true).
Proof.
  intros Hon.
  assert (Hiff : shouldBlock ty b url = true ↔
                 ∃ rule pre post, rule ∈ rules b ∧ enabled rule = true ∧
                                  type rule = ty ∧ url = pre +:+ pattern rule +:+ post).
  { rewrite shouldBlock_exists. split.
    - intros (_ & rule & Hin & Hen & Hty & Hinc).
      apply includes_spec in Hinc as (pre & post & Hurl). by exists rule, pre, post.
    - intros (rule & pre & post & Hin & Hen & Hty & Hurl). split; [done|].
      exists rule. repeat split; try done. apply includes_spec. by exists pre, post. }
  split; [exact Hiff|].
  intros rule Hin Hen Hty Hpat. apply Hiff. exists rule, "", url.
  by rewrite Hpat.
Qed.

Lemma shouldBlock_substring_witness :
  let b := addRule {| id := "all-iframes"; name := "Every frame"; pattern := "";
                      type := iframe; category := "marketing"; enabled := true;
                      description := "Blocks every frame" |} (enable create) in
  shouldBlock iframe b "https://www.youtube.com/embed/abc" = true.
Proof.
  intros b.
  destruct (shouldBlock_substring b iframe "https://www.youtube.com/embed/abc" eq_refl)
    as [_ Hempty].
  apply (Hempty {| id := "all-iframes"; name := "Every frame"; pattern := "";
                    type := iframe; category := "marketing"; enabled := true;
                    description := "Blocks every frame" |}); [|reflexivity..].
  vm_compute. repeat constructor.
Defined.

Lemma find_id_filter ruleId (l : list Rule) :
  List.find (fun rule => String.eqb (id rule) ruleId)
            (filter (fun rule => id rule ≠ ruleId) l) = None.
Proof.
  induction l as [|rule l IH]; [done|].
  rewrite filter_cons. case_decide as Hne; [|done].
  simpl. apply String.eqb_neq in Hne. by rewrite Hne.
Qed.

(** X2. After [removeRule(ruleId)] no rule with that identifier is left
    (every rule that carried it is gone, and [isRuleEnabled] answers
    false for it), and what the blocker blocks is what the remaining
    rules block. *)
Theorem removeRule_removes_all (ruleId : string) (b : Blocker) (ty : RuleType)
    (url : string) :
  isRuleEnabled ruleId (removeRule ruleId b) = false ∧
  (∀ rule, rule ∈ rules (removeRule ruleId b) ↔ rule ∈ rules b ∧ id rule ≠ ruleId) ∧
  (shouldBlock ty (removeRule ruleId b) url = true ↔
   isEnabled b = true ∧
   ∃ rule, rule ∈ rules b ∧ id rule ≠ ruleId ∧ enabled rule = true ∧ type rule = ty ∧
           includes url (pattern rule) = true).
Proof.
  assert (Hin : ∀ rule, rule ∈ rules (removeRule ruleId b)
                        ↔ rule ∈ rules b ∧ id rule ≠ ruleId).
  { intros rule. simpl. rewrite list_elem_of_filter. tauto. }
  split; [|split; [exact Hin|]].
  - unfold isRuleEnabled. simpl. by rewrite find_id_filter.
  - rewrite shouldBlock_exists. simpl isEnabled. split.
    + intros (Hon & rule & Hr & Hen & Hty & Hinc). split; [done|].
      apply Hin in Hr as [Hr Hne]. by exists rule.
    + intros (Hon & rule & Hr & Hne & Hen & Hty & Hinc). split; [done|].
      exists rule. split; [by apply Hin|done].
Qed.

Lemma find_set_first_same ruleId on (l : list Rule) :
  List.find (fun rule => String.eqb (id rule) ruleId) (set_first ruleId on l)
  = (fun rule => {| id := id rule; name := name rule; pattern := pattern rule;
                    type := type rule; category := category rule; enabled := on;
                    description := description rule |})
    <$> List.find (fun rule => String.eqb (id rule) ruleId) l.
Proof.
  induction l as [|rule l IH]; [done|]. simpl.
  destruct (String.eqb (id rule) ruleId) eqn:E; simpl; by rewrite E.
Qed.

Lemma find_set_first_other ruleId other on (l : list Rule) :
  other ≠ ruleId →
  List.find (fun rule => String.eqb (id rule) other) (set_first ruleId on l)
  = List.find (fun rule => String.eqb (id rule) other) l.
Proof.
  intros Hne. induction l as [|rule l IH]; [done|]. simpl.
  destruct (String.eqb (id rule) ruleId) eqn:E; simpl.
  - apply String.eqb_eq in E. apply String.eqb_neq in Hne.
    rewrite E. rewrite String.eqb_sym in Hne. by rewrite Hne.
  - destruct (String.eqb (id rule) other); [done|exact IH].
Qed.

Lemma set_first_absent ruleId on (l : list Rule) :
  ruleId ∉ map id l → set_first ruleId on l = l.
Proof.
  induction l as [|rule l IH]; [done|]. simpl. intros Hnot.
  apply not_elem_of_cons in Hnot as [Hne Hnot].
  destruct (String.eqb (id rule) ruleId) eqn:E.
  - apply String.eqb_eq in E. congruence.
  - by rewrite IH.
Qed.

(** X3. [setRuleEnabled] followed by [isRuleEnabled] for the same
    identifier gives back the flag when a rule carries the identifier,
    and false when none does; the answer for any other identifier is
    unchanged, and for an unknown identifier the blocker is unchanged. *)
Theorem setRuleEnabled_then_isRuleEnabled (ruleId : string) (on : bool) (b : Blocker) :
  isRuleEnabled ruleId (setRuleEnabled ruleId on b)
    = (if bool_decide (ruleId ∈ map id (rules b)) then on else false) ∧
  (∀ other, other ≠ ruleId →
            isRuleEnabled other (setRuleEnabled ruleId on b) = isRuleEnabled other b) ∧
  (ruleId ∉ map id (rules b) → setRuleEnabled ruleId on b = b).
Proof.
  split; [|split].
  - unfold isRuleEnabled. simpl. rewrite find_set_first_same.
    destruct (List.find _ (rules b)) as [rule|] eqn:Hfind; simpl.
    + rewrite bool_decide_eq_true_2; [done|].
      apply find_some in Hfind as [Hin Hid]. apply String.eqb_eq in Hid.
      apply list_elem_of_In in Hin. rewrite <- Hid.
      by apply (list_elem_of_fmap_2 id).
    + rewrite bool_decide_eq_false_2; [done|].
      intros Hin. apply list_elem_of_fmap in Hin as [rule [Hid Hin]].
      apply list_elem_of_In in Hin.
      pose proof (find_none _ _ Hfind rule Hin) as Hne. simpl in Hne.
      rewrite <- Hid, String.eqb_refl in Hne. done.
  - intros other Hne. unfold isRuleEnabled. simpl. by rewrite find_set_first_other.
  - intros Hnot. unfold setRuleEnabled. rewrite set_first_absent by done.
    by destruct b.
Qed.

Lemma setRuleEnabled_then_isRuleEnabled_witness :
  isRuleEnabled "hotjar" (setRuleEnabled "hotjar" false (enable create)) = false ∧
  isRuleEnabled "google-analytics" (setRuleEnabled "hotjar" false (enable create)) = true ∧
  setRuleEnabled "matomo" false (enable create) = enable create.
Proof.
  destruct (setRuleEnabled_then_isRuleEnabled "hotjar" false (enable create))
    as (Hsame & Hother & _).
  destruct (setRuleEnabled_then_isRuleEnabled "matomo" false (enable create))
    as (_ & _ & Hunknown).
  split; [exact Hsame|]. split.
  - rewrite Hother; [reflexivity|discriminate].
  - apply Hunknown. vm_compute. intros Hin.
    repeat (apply elem_of_cons in Hin as [Hin|Hin]; [discriminate Hin|]).
    by apply elem_of_nil in Hin.
Defined.

End AutoBlockerRules.

(** ** Regions *)
Module GeoTargetingSpec.
Import JS GeoTargeting.

Lemma regions_lookup (cc : string) :
  initializeRegions !! cc =
    if bool_decide (cc = "CA") then Some region_CA
    else if bool_decide (cc = "GB") then Some region_GB
    else if bool_decide (cc = "EU") then Some region_EU
    else None.
Proof.
  unfold initializeRegions.
  case_bool_decide as HCA; [subst; by rewrite lookup_insert_eq|].
  rewrite lookup_insert_ne by done.
  case_bool_decide as HGB; [subst; by rewrite lookup_insert_eq|].
  rewrite lookup_insert_ne by done.
  case_bool_decide as HEU; [subst; by rewrite lookup_insert_eq|].
  by rewrite lookup_insert_ne.
Qed.

Lemma eu_not_region (cc : string) :
  cc ∈ euCountries → cc ≠ "CA" ∧ cc ≠ "GB" ∧ cc ≠ "EU".
Proof.
  unfold euCountries. intros Hin.
  repeat (apply elem_of_cons in Hin as [->|Hin]; [by repeat split|]).
  by apply elem_of_nil in Hin.
Qed.

Definition requires_opt_in (on : option bool) (location : option value) : Prop :=
  default true on = true ∧
  ∃ cc, location = Some (VStr cc) ∧ (cc ∈ euCountries ∨ cc = "EU" ∨ cc = "GB").

Lemma region_cases (on : option bool) (location : option value) :
  (requires_opt_in on location ∧
   (getComplianceRegion (create on) location = region_EU ∨
    getComplianceRegion (create on) location = region_GB)) ∨
  (¬ requires_opt_in on location ∧
   (getComplianceRegion (create on) location = region_CA ∨
    getComplianceRegion (create on) location = getDefaultRegion)).
Proof.
  unfold getComplianceRegion, requires_opt_in. cbn [enabled create fallbackRegion regions].
  destruct (default true on) eqn:Hon; cbn [negb]; [|right; split; [by intros []|by right]].
  destruct location as [[| | | |cc| |]|];
    try (right; split; [by intros (_ & cc & ? & _)|by right]).
  case_bool_decide as Heu.
  - left. split; [split; [done|]; exists cc; by split; [|left]|].
    left. by rewrite regions_lookup.
  - rewrite regions_lookup.
    case_bool_decide as HCA.
    { right. split; [|by left]. intros (_ & cc' & [= <-] & [?|[?|?]]); by subst. }
    case_bool_decide as HGB.
    { left. split; [|by right]. split; [done|]. exists cc. split; [done|]. by right; right. }
    case_bool_decide as HEU.
    { left. split; [|by left]. split; [done|]. exists cc. split; [done|]. by right; left. }
    right. split; [|by right]. intros (_ & cc' & [= <-] & [?|[?|?]]); by subst.
Qed.

(** X4. Consent is required, and its type is opt-in, exactly when
    geo-targeting is enabled and the location lookup answered with the
    country code of one of the 27 listed countries, "EU" or "GB".  In every
    other case (geo-targeting disabled, failed lookup, an answer without a
    country code, any other country) consent is not required and the
    consent type is opt-out; a region is always returned. *)
Theorem consent_required_iff (on : option bool) (location : option value) :
  (isConsentRequired (create on) location = true ↔ requires_opt_in on location) ∧
  (getConsentType (create on) location = opt_in ↔ requires_opt_in on location) ∧
  (getComplianceRegion (create on) location ∈
     [region_EU; region_GB; region_CA; getDefaultRegion]).
Proof.
  unfold isConsentRequired, getConsentType.
  destruct (region_cases on location) as [[Hreq [Hr|Hr]]|[Hreq [Hr|Hr]]];
    rewrite Hr; cbn; (split; [|split]); try tauto;
    try (split; [discriminate|tauto]); repeat constructor.
Qed.

(** X5. The texts follow the region and not the country: every visitor
    for whom consent is not required gets the "CA" texts (with "Opt Out"),
    also under the "US" fallback region, which has no texts of its own;
    every visitor from one of the listed EU countries gets the "EU"
    texts, whatever the country. *)
Theorem region_texts (on : option bool) (location : option value) :
  (isConsentRequired (create on) location = false →
   getRegionTexts (create on) location = texts_CA) ∧
  (∀ cc, default true on = true → location = Some (VStr cc) → cc ∈ euCountries →
         getRegionTexts (create on) location = texts_EU).
Proof.
  split.
  - unfold isConsentRequired, getRegionTexts.
    destruct (region_cases on location) as [[_ [Hr|Hr]]|[_ [Hr|Hr]]];
      rewrite Hr; cbn; done.
  - intros cc Hon -> Heu. unfold getRegionTexts, getComplianceRegion.
    cbn [enabled create fallbackRegion regions]. rewrite Hon. cbn [negb].
    rewrite bool_decide_eq_true_2 by done. by rewrite regions_lookup.
Qed.

Lemma region_texts_witness :
  getRegionTexts (create None) (Some (VStr "US")) = texts_CA ∧
  getRegionTexts (create None) (Some (VStr "FR")) = texts_EU.
Proof.
  split.
  - apply (region_texts None (Some (VStr "US"))). reflexivity.
  - apply (region_texts None (Some (VStr "FR")) ) with (cc := "FR");
      [reflexivity|reflexivity|].
    vm_compute. repeat constructor.
Defined.

End GeoTargetingSpec.

(** ** The scanner *)
Module WebsiteScannerSpec.
Import WebsiteScanner IncludesFacts.

Section Url.
Variable hostname : string → option string.

(** X6. Every script URL that the auto-blocker with its default rules
    blocks is identified by the scanner as a tracker, with the host name
    of the URL as its domain, provided the URL can be parsed; a URL that
    cannot be parsed is never identified, whatever it contains. *)
Theorem blocked_scripts_are_identified (url : string) :
  (∀ host, AutoBlocker.shouldBlockScript (AutoBlocker.enable AutoBlocker.create) url = true →
           hostname url = Some host →
           ∃ tracker, identifyTracker hostname url = Some tracker ∧
                      tracker_domain tracker = host ∧ tracker_url tracker = url ∧
                      tracker_blocked tracker = false) ∧
  (hostname url = None → identifyTracker hostname url = None).
Proof.
  split.
  - intros host Hblock Hhost.
    unfold AutoBlocker.shouldBlockScript, AutoBlocker.shouldBlock in Hblock.
    cbn [AutoBlocker.isEnabled AutoBlocker.enable AutoBlocker.create AutoBlocker.rules
         AutoBlocker.initializeDefaultRules existsb AutoBlocker.enabled AutoBlocker.type
         AutoBlocker.pattern AutoBlocker.RuleType_eqb andb orb] in Hblock.
    rewrite orb_false_r in Hblock.
    unfold identifyTracker, tracker_patterns, some_included, includes.
    cbn [existsb]. rewrite Hhost.
    destruct (AutoBlocker.includes url "google-analytics.com") eqn:Hga;
      [cbn [orb]; by eexists|].
    destruct (AutoBlocker.includes url "googletagmanager.com") eqn:Hgtm;
      [cbn [orb]; by eexists|].
    cbn [orb] in Hblock |- *.
    destruct (AutoBlocker.includes url "connect.facebook.net") eqn:Hfb.
    { rewrite orb_true_r. by eexists. }
    cbn [orb] in Hblock. rewrite orb_false_r.
    destruct (AutoBlocker.includes url "facebook.net"); [by eexists|].
    rewrite Hblock, orb_true_r. by eexists.
  - intros Hhost. unfold identifyTracker, tracker_patterns. rewrite Hhost.
    by repeat destruct (some_included _ url).
Qed.

End Url.

Lemma blocked_scripts_are_identified_witness :
  ∃ tracker,
    identifyTracker (fun _ => Some "static.hotjar.com")
                    "https://static.hotjar.com/c/hotjar-1.js" = Some tracker ∧
    tracker_domain tracker = "static.hotjar.com".
Proof.
  destruct (blocked_scripts_are_identified (fun _ => Some "static.hotjar.com")
              "https://static.hotjar.com/c/hotjar-1.js") as [Hid _].
  destruct (Hid "static.hotjar.com" eq_refl eq_refl) as (tracker & Ht & Hd & _).
  by exists tracker.
Defined.

End WebsiteScannerSpec.

(** ** Reads, writes and cleanups of the server cache *)
Module CacheFrame.
Import JS Cache.

Lemma get_value (svc : CacheService) (key : string) (now : Z) :
  (get svc key now).1 =
    if isEnabled svc then
      match cache svc !! key with
      | Some item => if bool_decide (now > expires item) then VNull else data item
      | None => VNull
      end
    else VNull.
Proof.
  unfold get. destruct (isEnabled svc); [|done]. cbn [negb].
  destruct (cache svc !! key) as [item|]; [|done]. by case_bool_decide.
Qed.

Lemma cleanup_lookup (svc : CacheService) (now : Z) (key : string) (item : Item) :
  cache (cleanup svc now) !! key = Some item ↔
  cache svc !! key = Some item ∧ now <= expires item.
Proof.
  unfold cleanup. cbn [cache with_cache]. rewrite map_lookup_filter_Some. cbn.
  split; intros [H1 H2]; (split; [done|lia]).
Qed.

(** X7. Removing expired entries never changes an answer: after a
    [cleanup], or after a [get] of any key (which deletes that key when it
    has expired), a later [get] of any key returns what it would have
    returned without it.  [cleanup] keeps exactly the entries that have
    not expired, also when caching is disabled. *)
Theorem expiry_is_transparent (svc : CacheService) (key other : string)
    (earlier later : Z) :
  earlier <= later →
  (get (cleanup svc earlier) key later).1 = (get svc key later).1 ∧
  (get (get svc other earlier).2 key later).1 = (get svc key later).1 ∧
  (∀ item, cache (cleanup svc earlier) !! key = Some item ↔
           cache svc !! key = Some item ∧ earlier <= expires item).
Proof.
  intros Htime. split; [|split].
  - rewrite !get_value. change (isEnabled (cleanup svc earlier)) with (isEnabled svc).
    destruct (isEnabled svc); [|done].
    destruct (cache svc !! key) as [item|] eqn:Hkey.
    + destruct (decide (earlier <= expires item)) as [Hfresh|Hold].
      * by rewrite (proj2 (cleanup_lookup svc earlier key item)).
      * destruct (cache (cleanup svc earlier) !! key) as [item'|] eqn:Hc.
        { apply cleanup_lookup in Hc as [Hc ?]. by simplify_eq. }
        by rewrite bool_decide_eq_true_2 by lia.
    + destruct (cache (cleanup svc earlier) !! key) as [item'|] eqn:Hc; [|done].
      apply cleanup_lookup in Hc as [Hc ?]. congruence.
  - rewrite (get_value _ key), (get_value svc key).
    unfold get. destruct (isEnabled svc) eqn:Hon; cbn [negb snd]; [|by rewrite Hon].
    destruct (cache svc !! other) as [item|] eqn:Hother; cbn [snd]; [|by rewrite Hon].
    case_bool_decide as Hexp; cbn [snd]; [|by rewrite Hon].
    change (isEnabled (with_cache svc _)) with (isEnabled svc). rewrite Hon.
    cbn [cache with_cache].
    destruct (decide (key = other)) as [->|Hne].
    + rewrite lookup_delete_eq, Hother. by rewrite bool_decide_eq_true_2 by lia.
    + by rewrite lookup_delete_ne.
  - intros item. apply cleanup_lookup.
Qed.

Lemma expiry_is_transparent_witness :
  let svc := set {| cache := ∅; config_enabled := true; config_ttl := 300 |}
                 "cookie-config-en" (VStr "doc") None 1000 in
  (get (cleanup svc 400000) "cookie-config-en" 400001).1
    = (get svc "cookie-config-en" 400001).1.
Proof.
  intros svc.
  apply (expiry_is_transparent svc "cookie-config-en" "cookie-config-en" 400000 400001).
  lia.
Defined.

(** X8. Keys do not interfere: a [set] or a [delete] of one key leaves
    what a [get] of any other key returns unchanged.  After [delete] a
    [get] of the key returns null, and after [clear] a [get] of every key
    does. *)
Theorem cache_keys_independent (svc : CacheService) (key other : string) (d : value)
    (ttl : option Z) (t now : Z) :
  (other ≠ key →
   (get (set svc key d ttl t) other now).1 = (get svc other now).1 ∧
   (get (delete svc key) other now).1 = (get svc other now).1) ∧
  (get (delete svc key) key now).1 = VNull ∧
  (get (clear svc) other now).1 = VNull.
Proof.
  rewrite !get_value. unfold set, delete, clear.
  destruct (isEnabled svc) eqn:Hon; cbn [negb];
    [|rewrite ?Hon; by repeat split].
  change (isEnabled (with_cache svc ?m)) with (isEnabled svc). rewrite !Hon.
  cbn [cache with_cache]. split; [|split].
  - intros Hne. by rewrite lookup_insert_ne, lookup_delete_ne.
  - by rewrite lookup_delete_eq.
  - by rewrite lookup_empty.
Qed.

Lemma cache_keys_independent_witness :
  let svc := set {| cache := ∅; config_enabled := true; config_ttl := 300 |}
                 "cookie-config-en" (VStr "doc") None 1000 in
  (get (set svc "cookie-config-de" (VStr "dok") None 2000) "cookie-config-en" 3000).1
    = (get svc "cookie-config-en" 3000).1.
Proof.
  intros svc.
  destruct (cache_keys_independent svc "cookie-config-de" "cookie-config-en"
              (VStr "dok") None 2000 3000) as [Hother _].
  apply Hother. discriminate.
Defined.

End CacheFrame.

(** ** The rate limiter over whole runs *)
Module RateLimitRuns.
Import JS Middleware MiddlewareSpec.

(** X9. Clients are limited separately: what a client is answered on
    the rate-limited routes is decided by its stored entry and the
    arrival times of its own requests.  Two runs that agree on these give
    the client the same answers, whatever other clients send in between
    and whatever the store holds for them. *)
Theorem clients_do_not_interfere (cfg : RateLimit) (clientIp : string)
    (store store' : gmap string ClientData)
    (requests requests' : list (Route * string * Z)) :
  store !! clientIp = store' !! clientIp →
  client_times clientIp requests = client_times clientIp requests' →
  answers_to clientIp requests (serve cfg store requests).1
  = answers_to clientIp requests' (serve cfg store' requests').1.
Proof.
  intros Hentry Htimes. rewrite !serve_answers. by rewrite Hentry, Htimes.
Qed.

Lemma clients_do_not_interfere_witness :
  let alone := [(GET_cookie_config, "203.0.113.7", 5000)] in
  let crowded := replicate 150 (GET_cookie_config, "198.51.100.9", 4000) ++ alone in
  answers_to "203.0.113.7" alone (serve config_api_rateLimit ∅ alone).1
  = answers_to "203.0.113.7" crowded (serve config_api_rateLimit ∅ crowded).1.
Proof.
  intros alone crowded.
  apply (clients_do_not_interfere config_api_rateLimit "203.0.113.7" ∅ ∅ alone crowded);
    reflexivity.
Defined.

(** The arrival times never go backwards, starting from [prev]. *)
Fixpoint clock_ok (prev : Z) (requests : list (Route * string * Z)) : Prop :=
  match requests with
  | [] => True
  | req :: rest => prev <= req.2 ∧ clock_ok req.2 rest
  end.

(** Every stored counter is within the budget and every stored window
    ends at most one window length after [now]. *)
Definition store_ok (cfg : RateLimit) (now : Z) (store : gmap string ClientData) : Prop :=
  ∀ clientIp clientData, store !! clientIp = Some clientData →
    0 <= count clientData <= max cfg ∧ resetTime clientData <= now + windowMs cfg.

Definition answer_ok (cfg : RateLimit) (o : Outcome) : Prop :=
  o = next ∨
  ∃ retryAfter, o = too_many_requests retryAfter ∧
                0 <= retryAfter <= ceil_div (windowMs cfg) 1000.

Lemma ceil_div_bounds (x w : Z) :
  0 <= x <= w → 0 <= ceil_div x 1000 <= ceil_div w 1000.
Proof.
  intros [H0 Hw]. unfold ceil_div.
  assert (- w / 1000 <= - x / 1000) by (apply Z.div_le_mono; lia).
  assert (- x / 1000 <= 0 / 1000) by (apply Z.div_le_mono; lia).
  rewrite Z.div_0_l in * by lia. lia.
Qed.

Lemma store_ok_later cfg prev now store :
  prev <= now → store_ok cfg prev store → store_ok cfg now store.
Proof.
  intros Hle Hok ip d Hd. destruct (Hok ip d Hd). split; [done|lia].
Qed.

Lemma store_ok_insert cfg now store ip d :
  store_ok cfg now store →
  0 <= count d <= max cfg → resetTime d <= now + windowMs cfg →
  store_ok cfg now (<[ip := d]> store).
Proof.
  intros Hok Hc Hr ip' d'. destruct (decide (ip' = ip)) as [->|Hne].
  - rewrite lookup_insert_eq. intros [= <-]. done.
  - rewrite lookup_insert_ne by done. apply Hok.
Qed.

Lemma middleware_ok cfg store clientIp now :
  0 <= windowMs cfg → 0 <= max cfg → store_ok cfg now store →
  answer_ok cfg (rateLimitMiddleware cfg store clientIp now).1 ∧
  store_ok cfg now (rateLimitMiddleware cfg store clientIp now).2.
Proof.
  intros Hw Hm Hok. unfold rateLimitMiddleware.
  destruct (store !! clientIp) as [d|] eqn:Hd; cbn [from_option id].
  - destruct (Hok _ _ Hd) as [Hc Hr].
    destruct (bool_decide (now > resetTime d)) eqn:Hreset; cbn [count resetTime andb].
    + apply bool_decide_eq_true_1 in Hreset.
      case_bool_decide as Hfull; cbn [fst snd].
      * split.
        -- right. eexists. split; [reflexivity|].
           replace (now + windowMs cfg - now) with (windowMs cfg) by lia.
           apply ceil_div_bounds. lia.
        -- rewrite bool_decide_eq_true_2 by done.
           apply store_ok_insert; cbn; [done|lia|lia].
      * split; [by left|]. apply store_ok_insert; cbn; [done|lia|lia].
    + apply bool_decide_eq_false_1 in Hreset.
      case_bool_decide as Hfull; cbn [fst snd].
      * split; [|done]. right. eexists. split; [reflexivity|].
        apply ceil_div_bounds. lia.
      * split; [by left|]. apply store_ok_insert; cbn; [done|lia|lia].
  - rewrite (bool_decide_eq_false_2 (now > _)) by (cbn; lia).
    cbn [count resetTime andb].
    case_bool_decide as Hfull; cbn [fst snd].
    + split; [|done]. right. eexists. split; [reflexivity|].
      replace (now + windowMs cfg - now) with (windowMs cfg) by lia.
      apply ceil_div_bounds. lia.
    + split; [by left|]. apply store_ok_insert; cbn; [done|lia|lia].
Qed.

Lemma serve_ok cfg requests :
  0 <= windowMs cfg → 0 <= max cfg →
  ∀ prev store, store_ok cfg prev store → clock_ok prev requests →
    Forall (answer_ok cfg) (serve cfg store requests).1 ∧
    ∀ now, last (prev :: map snd requests) = Some now →
           store_ok cfg now (serve cfg store requests).2.
Proof.
  intros Hw Hm. induction requests as [|[[r ip] t] rest IH]; intros prev store Hok Hclock.
  - cbn. split; [constructor|]. by intros now [= <-].
  - destruct Hclock as [Hle Hclock]. cbn [snd] in Hle, Hclock.
    rewrite serve_cons. cbn [fst snd].
    assert (Hstep : answer_ok cfg (route_rateLimit cfg r store ip t).1 ∧
                    store_ok cfg t (route_rateLimit cfg r store ip t).2).
    { unfold route_rateLimit. case_bool_decide.
      - apply middleware_ok; [done|done|by eapply store_ok_later].
      - split; [by left|by eapply store_ok_later]. }
    destruct Hstep as [Ho Hs]. destruct (IH t _ Hs Hclock) as [Hos Hfinal].
    split; [by constructor|].
    intros now Hlast. apply Hfinal. by rewrite fmap_cons, last_cons_cons in Hlast.
Qed.

(** X10. From the empty store that the middleware creates, and with
    arrival times that never go backwards, a non-negative budget and
    window: every answer of a run is either a hand-over or a 429 whose
    [retryAfter] lies between 0 and the window length in seconds, and
    afterwards every stored counter lies between 0 and the budget. *)
Theorem limiter_stays_within_bounds (cfg : RateLimit)
    (requests : list (Route * string * Z)) (start : Z) :
  0 <= windowMs cfg → 0 <= max cfg → clock_ok start requests →
  Forall (answer_ok cfg) (serve cfg ∅ requests).1 ∧
  (∀ clientIp clientData,
     (serve cfg ∅ requests).2 !! clientIp = Some clientData →
     0 <= count clientData <= max cfg).
Proof.
  intros Hw Hm Hclock.
  assert (Hempty : store_ok cfg start ∅) by (intros ip d Hd; by rewrite lookup_empty in Hd).
  destruct (serve_ok cfg requests Hw Hm start ∅ Hempty Hclock) as [Hos Hfinal].
  split; [done|]. intros ip d Hd.
  destruct (last (start :: map snd requests)) as [now|] eqn:Hlast.
  - by destruct (Hfinal now eq_refl ip d Hd).
  - by apply last_None in Hlast.
Qed.

Lemma limiter_stays_within_bounds_witness :
  let requests := replicate 3 (GET_cookie_config, "203.0.113.7", 5000) in
  Forall (answer_ok {| windowMs := 60000; max := 2 |})
         (serve {| windowMs := 60000; max := 2 |} ∅ requests).1.
Proof.
  intros requests.
  apply (limiter_stays_within_bounds {| windowMs := 60000; max := 2 |} requests 0);
    cbn; lia.
Defined.

End RateLimitRuns.

(** ** Deleting a configuration; the language parameter *)
Module DeleteConfigSpec.
Import JS Validation Controllers ControllersSpec.

Lemma is_lower_fixed (c : ascii) : is_lower c = true → lower_ascii c = c.
Proof.
  destruct c as [[] [] [] [] [] [] [] []]; vm_compute; intros H; try reflexivity;
    discriminate H.
Qed.

(** X11. A language parameter that [validateLanguage] accepts is in
    lower case already, of two letters or of the form "xx-yy": the
    lower-casing of the handlers leaves it as it is, so that on a route
    behind this check the cache key and the store key are built from the
    same string.  A parameter with an upper-case letter is refused. *)
Theorem validated_language_is_lower_case (language : string) :
  ModernUtils.validateLanguage language = true →
  toLowerCase language = language ∧
  (String.length language = 2%nat ∨ String.length language = 5%nat).
Proof.
  unfold ModernUtils.validateLanguage, re_language.
  destruct language as [|a [|b [|d [|c1 [|c2 [|c3 rest]]]]]]; cbn; try done.
  - intros H. apply andb_prop in H as [Ha Hb].
    rewrite !is_lower_fixed by done. split; [reflexivity|by left].
  - intros H. apply andb_prop in H as [H Hc2]. apply andb_prop in H as [H Hc1].
    apply andb_prop in H as [H Hd]. apply andb_prop in H as [Ha Hb].
    apply Ascii.eqb_eq in Hd as ->.
    rewrite (is_lower_fixed a), (is_lower_fixed b), (is_lower_fixed c1),
      (is_lower_fixed c2) by done.
    split; [reflexivity|by right].
Qed.

Lemma validated_language_is_lower_case_witness :
  toLowerCase "pt-br" = "pt-br" ∧ ModernUtils.validateLanguage "en-US" = false.
Proof.
  split; [|reflexivity].
  apply (validated_language_is_lower_case "pt-br"). reflexivity.
Defined.

(** The unique index on [language]: no two documents of the collection
    carry the same language. *)
Definition one_per_language (coll : list value) : Prop :=
  ∀ i j di dj, coll !! i = Some di → coll !! j = Some dj →
    field_eqb (JS.get di "language") (JS.get dj "language") = true → i = j.

Lemma matches_same_language lang di dj :
  matches [("language", VStr lang)] di = true →
  matches [("language", VStr lang)] dj = true →
  field_eqb (JS.get di "language") (JS.get dj "language") = true.
Proof.
  unfold matches. cbn [forallb]. rewrite !andb_true_r.
  destruct (JS.get di "language"); cbn; try done.
  destruct (JS.get dj "language"); cbn; try done.
  intros H1 H2. apply String.eqb_eq in H1, H2. subst. apply String.eqb_refl.
Qed.

Lemma findOne_deleted lang (coll : list value) i d :
  one_per_language coll →
  findOne [("language", VStr lang)] coll = Some (i, d) →
  findOne [("language", VStr lang); ("enabled", VBool true)] (base.delete i coll) = None.
Proof.
  unfold findOne. intros Huniq Hfound.
  apply list_find_Some in Hfound as (Hi & Hd & Hfirst).
  apply list_find_None. apply Forall_forall. intros y Hy Hmatch.
  apply matches_language_enabled in Hmatch.
  apply list_elem_of_lookup in Hy as [j Hj].
  destruct (decide (j < i)%nat) as [Hlt|Hge].
  - rewrite list_lookup_delete_lt in Hj by done. by apply (Hfirst j y Hj Hlt).
  - rewrite list_lookup_delete_ge in Hj by lia.
    assert (S j = i); [|lia].
    apply (Huniq (S j) i y d Hj Hi). by apply (matches_same_language lang).
Qed.

(** X12. With at most one document per language in the collection: when
    [deleteConfig] succeeds, one document is gone from the collection and
    a read for the same language parameter that follows is answered "not
    found", from neither the cache nor the store.  When [deleteConfig]
    fails, the cache and the collection are as before. *)
Theorem delete_then_get_not_found (language : string) (now : Z) (s s' : Service)
    (reply : Reply) :
  one_per_language (CookieConfig s) →
  deleteConfig language s = (reply, s') →
  match reply with
  | res_json r =>
      (length (CookieConfig s') + 1 = length (CookieConfig s))%nat ∧
      (getConfigByLanguage language now s').1
      = next_error (api_error (NotFoundError
                      ("Configuration for language '" +:+ language +:+ "'")))
  | next_error e => s' = s
  end.
Proof.
  intros Huniq Hdel. unfold deleteConfig in Hdel.
  destruct (findOne _ (CookieConfig s)) as [[i d]|] eqn:Hfind;
    injection Hdel as <- <-; [|done].
  split.
  - cbn [CookieConfig]. unfold findOne in Hfind.
    apply list_find_Some in Hfind as (Hi & _). apply lookup_lt_Some in Hi.
    rewrite length_delete; [lia|]. by apply lookup_lt_is_Some_2.
  - pose proof (findOne_deleted _ _ _ _ Huniq Hfind) as Hnone.
    unfold getConfigByLanguage. cbn [cacheService CookieConfig].
    destruct (Cache.isEnabled (cacheService s)) eqn:Hon.
    + assert (Hon' : Cache.isEnabled
                       (Cache.delete (cacheService s) ("cookie-config-" +:+ language))
                     = true).
      { unfold Cache.delete, Cache.isEnabled in *. by rewrite Hon. }
      rewrite Hon'. rewrite get_after_evict by done. cbn [truthy andb].
      by rewrite Hnone.
    + rewrite Hon. cbn [andb]. by rewrite Hnone.
Qed.

Lemma delete_then_get_not_found_witness :
  let s := (createOrUpdateConfig Some "en" (a_config "en" (VStr "#007bff") (VBool true))
              (VStr "admin-1") empty_service).2 in
  let s1 := (getConfigByLanguage "en" 0 s).2 in
  (getConfigByLanguage "en" 1000 (deleteConfig "en" s1).2).1
  = next_error (api_error (NotFoundError "Configuration for language 'en'")).
Proof.
  intros s s1.
  assert (Huniq : one_per_language (CookieConfig s1)).
  { intros i j di dj Hi Hj _. vm_compute in Hi, Hj.
    destruct i as [|i]; [|destruct i; discriminate Hi].
    destruct j as [|j]; [done|destruct j; discriminate Hj]. }
  pose proof (delete_then_get_not_found "en" 1000 s1 (deleteConfig "en" s1).2
                (deleteConfig "en" s1).1 Huniq) as H.
  destruct (deleteConfig "en" s1) as [[r|e] s'] eqn:E.
  - exact (proj2 (H eq_refl)).
  - vm_compute in E. discriminate E.
Defined.

(** X13. [deleteConfig] evicts the cache entry under the spelling of its
    own language parameter only.  A fresh entry cached under another
    spelling stays: after a successful delete, a read under that spelling
    is still answered from the cache with the cached document, until the
    entry expires. *)
Theorem delete_leaves_other_spellings_cached (language other : string) (now : Z)
    (s s' : Service) (r : ApiResponse) (item : Cache.Item) :
  deleteConfig language s = (res_json r, s') →
  other ≠ language →
  Cache.isEnabled (cacheService s) = true →
  Cache.cache (cacheService s) !! ("cookie-config-" +:+ other) = Some item →
  now <= Cache.expires item →
  truthy (Cache.data item) = true →
  getConfigByLanguage other now s'
  = (res_json {| success := true; data := Cache.data item; language := other;
                 source := Some from_cache |}, s').
Proof.
  intros Hdel Hne Hon Hitem Hfresh Htruthy. unfold deleteConfig in Hdel.
  destruct (findOne _ (CookieConfig s)) as [[i d]|]; [|done].
  injection Hdel as <- <-. rewrite Hon.
  unfold getConfigByLanguage. cbn [cacheService CookieConfig].
  assert (Hon' : Cache.isEnabled
                   (Cache.delete (cacheService s) ("cookie-config-" +:+ language)) = true).
  { unfold Cache.delete, Cache.isEnabled in *. by rewrite Hon. }
  rewrite Hon'.
  assert (Hkey : "cookie-config-" +:+ other ≠ "cookie-config-" +:+ language).
  { intros Heq. by apply (inj (String.app "cookie-config-")) in Heq. }
  assert (Hget : Cache.get (Cache.delete (cacheService s) ("cookie-config-" +:+ language))
                           ("cookie-config-" +:+ other) now
                 = (Cache.data item,
                    Cache.delete (cacheService s) ("cookie-config-" +:+ language))).
  { unfold Cache.get. rewrite Hon'. cbn [negb].
    unfold Cache.delete at 1. rewrite Hon. cbn [negb].
    cbn [Cache.cache Cache.with_cache]. rewrite lookup_delete_ne by done.
    rewrite Hitem. by rewrite bool_decide_eq_false_2 by lia. }
  rewrite Hget. by rewrite Htruthy.
Qed.

Lemma delete_leaves_other_spellings_cached_witness :
  let s := (createOrUpdateConfig Some "en" (a_config "en" (VStr "#007bff") (VBool true))
              (VStr "admin-1") empty_service).2 in
  let s1 := (getConfigByLanguage "en" 0 s).2 in
  ∃ r, (getConfigByLanguage "en" 1000 (deleteConfig "EN" s1).2).1 = res_json r ∧
       source r = Some from_cache ∧ CookieConfig (deleteConfig "EN" s1).2 = [].
Proof.
  intros s s1.
  destruct (deleteConfig "EN" s1) as [[r|e] s'] eqn:E;
    [|vm_compute in E; discriminate E].
  assert (Hitem : ∃ item,
            Cache.cache (cacheService s1) !! ("cookie-config-" +:+ "en") = Some item ∧
            1000 <= Cache.expires item ∧ truthy (Cache.data item) = true).
  { eexists. split; [vm_compute; reflexivity|]. split; [cbn; lia|reflexivity]. }
  destruct Hitem as (item & Hitem & Hfresh & Htruthy).
  pose proof (delete_leaves_other_spellings_cached "EN" "en" 1000 s1 s' r item E
                ltac:(discriminate) eq_refl Hitem Hfresh Htruthy) as Hget.
  eexists. cbn [snd]. rewrite Hget. split; [reflexivity|]. split; [reflexivity|].
  vm_compute in E. by injection E as _ <-.
Defined.

End DeleteConfigSpec.

(** ** Induction on values *)
Module ValueInduction.
Import JS.

Section Principle.
Variable P : value → Prop.
Hypothesis Hundefined : P VUndefined.
Hypothesis Hnull : P VNull.
Hypothesis Hbool : ∀ b, P (VBool b).
Hypothesis Hnum : ∀ x, P (VNum x).
Hypothesis Hstr : ∀ s, P (VStr s).
Hypothesis Harr : ∀ items, Forall P items → P (VArr items).
Hypothesis Hobj : ∀ props, Forall (fun entry => P entry.2) props → P (VObj props).

Fixpoint value_induction (v : value) : P v :=
  match v with
  | VUndefined => Hundefined
  | VNull => Hnull
  | VBool b => Hbool b
  | VNum x => Hnum x
  | VStr s => Hstr s
  | VArr items =>
      Harr items
        ((fix each (l : list value) : Forall P l :=
            match l with
            | [] => List.Forall_nil P
            | x :: rest => @List.Forall_cons _ P x rest (value_induction x) (each rest)
            end) items)
  | VObj props =>
      Hobj props
        ((fix each (l : list (string * value)) : Forall (fun entry => P entry.2) l :=
            match l with
            | [] => List.Forall_nil _
            | (key, x) :: rest =>
                @List.Forall_cons _ (fun entry => P entry.2) (key, x) rest
                                  (value_induction x) (each rest)
            end) props)
  end.

End Principle.

Lemma Forall_assign (Q : value → Prop) (k : string) (v : value)
    (l : list (string * value)) :
  Q v → Forall (fun entry => Q entry.2) l → Forall (fun entry => Q entry.2) (assign k v l).
Proof.
  intros Hv. induction l as [|[k' v'] l IH]; intros Hl; cbn [assign].
  - by repeat constructor.
  - inversion_clear Hl as [|? ? Hhead Htail].
    destruct (String.eqb k k'); constructor; auto.
Qed.


Lemma indexed_keys i (l : list value) :
  (indexed_from i l).*1 = pretty <$> seq i (length l).
Proof.
  revert i. induction l as [|v l IH]; intros i; [done|].
  cbn [indexed_from length seq]. rewrite !fmap_cons. by rewrite IH.
Qed.

Lemma indexed_nodup i (l : list value) : NoDup (indexed_from i l).*1.
Proof. rewrite indexed_keys. apply (NoDup_fmap_2 _). apply NoDup_seq. Qed.



End ValueInduction.

(** ** Sanitising input *)
Module SanitizeSpec.
Import JS ModernUtils ValueInduction.













End SanitizeSpec.

(** ** Chunks *)
Module ChunkSpec.
Import ModernUtils.

Section Chunks.
Context {A : Type}.
Implicit Types (array : list A) (chunks : list (list A)).

Lemma slice_from array (size i : Z) :
  0 < size → 0 <= i < Z.of_nat (length array) →
  slice array i (i + size)
  = take (Z.to_nat (Z.min (i + size) (Z.of_nat (length array)) - i))
         (drop (Z.to_nat i) array).
Proof.
  intros Hsize Hi. unfold slice.
  rewrite !bool_decide_eq_false_2 by lia.
  by rewrite (Z.min_l i) by lia.
Qed.

Definition chunk_ok (size : Z) (piece : list A) : Prop :=
  (0 < length piece)%nat ∧ Z.of_nat (length piece) <= size.

Lemma chunk_loop_spec (size : Z) array :
  0 < size →
  ∀ fuel i chunks,
    0 <= i →
    Z.max 0 (Z.of_nat (length array) - i) < Z.of_nat fuel →
    concat chunks = take (Z.to_nat i) array →
    Forall (chunk_ok size) chunks →
    ∃ result, chunk_loop fuel array size i chunks = Some result ∧
              concat result = array ∧ Forall (chunk_ok size) result.
Proof.
  intros Hsize. induction fuel as [|fuel IH]; intros i chunks Hi Hfuel Hdone Hok; [lia|].
  cbn [chunk_loop]. case_bool_decide as Hlt.
  - apply IH; [lia|lia| |].
    + rewrite concat_app, Hdone. cbn [concat]. rewrite app_nil_r.
      rewrite slice_from by lia. rewrite take_take_drop.
      destruct (decide (i + size <= Z.of_nat (length array))) as [Hin|Hout].
      * rewrite Z.min_l by lia. f_equal. lia.
      * rewrite Z.min_r by lia. rewrite !take_ge; [done|lia|lia].
    + apply Forall_app. split; [done|]. constructor; [|constructor].
      rewrite slice_from by lia. unfold chunk_ok.
      rewrite length_take, length_drop. lia.
  - exists chunks. split; [done|]. split; [|done].
    rewrite Hdone. apply take_ge. lia.
Qed.

Lemma chunk_loop_diverges (size : Z) array :
  size <= 0 → array ≠ [] →
  ∀ fuel i chunks, i <= 0 → chunk_loop fuel array size i chunks = None.
Proof.
  intros Hsize Harray. induction fuel as [|fuel IH]; intros i chunks Hi; [done|].
  cbn [chunk_loop]. rewrite bool_decide_eq_true_2.
  - apply IH. lia.
  - destruct array; [done|]. cbn [length]. lia.
Qed.

(** X16. For a positive integer size, [arrayUtils.chunk] returns: the
    loop ends after at most one round per element, the chunks put one
    after the other give the array back, and every chunk holds at least
    one and at most [size] elements.  For a size of zero or less and an
    array that is not empty the loop never ends, whatever the number of
    rounds it is given. *)
Theorem chunk_splits_the_array array (size : Z) :
  (0 < size →
   ∀ fuel, (length array < fuel)%nat →
     ∃ chunks, chunk fuel array size = Some chunks ∧ concat chunks = array ∧
               Forall (chunk_ok size) chunks) ∧
  (size <= 0 → array ≠ [] → ∀ fuel, chunk fuel array size = None).
Proof.
  split.
  - intros Hsize fuel Hfuel. unfold chunk.
    apply chunk_loop_spec; [done|lia|lia|done|constructor].
  - intros Hsize Harray fuel. by apply chunk_loop_diverges.
Qed.

End Chunks.

Lemma chunk_splits_the_array_witness :
  (∃ chunks, chunk 6 ["en"; "de"; "fr"; "es"; "it"] 2 = Some chunks ∧
             concat chunks = ["en"; "de"; "fr"; "es"; "it"]) ∧
  chunk 1000 ["en"] 0 = None.
Proof.
  split.
  - destruct (chunk_splits_the_array ["en"; "de"; "fr"; "es"; "it"] 2) as [Hpos _].
    destruct (Hpos ltac:(lia) 6%nat ltac:(cbn; lia)) as (chunks & Hchunk & Hall & _).
    by exists chunks.
  - destruct (chunk_splits_the_array ["en"] 0) as [_ Hneg].
    apply Hneg; [lia|discriminate].
Defined.

End ChunkSpec.

(** ** The consent log *)
Module ConsentLoggerSpec.
Import JS ConsentLogger IncludesFacts.

(** The number of dots of an address. *)
Fixpoint dots (s : string) : nat :=
  match s with
  | EmptyString => 0
  | String c rest => (if Ascii.eqb c "." then 1 else 0) + dots rest
  end.

Lemma split_nonempty sep s : split sep s ≠ [].
Proof.
  destruct s as [|c s]; cbn [split]; [done|].
  destruct (Ascii.eqb c sep); [done|]. by destruct (split sep s).
Qed.

Lemma split_length (s : string) : length (split "." s) = S (dots s).
Proof.
  induction s as [|c s IH]; [done|]. cbn [split dots].
  destruct (Ascii.eqb c "."); cbn [length]; [by rewrite IH|].
  destruct (split "." s) as [|head tail] eqn:E; [by destruct (split_nonempty "." s)|].
  cbn [length] in *. lia.
Qed.

Lemma split_part (p rest : string) :
  dots p = 0%nat → split "." (p +:+ "." +:+ rest) = p :: split "." rest.
Proof.
  induction p as [|c p IH]; intros Hp.
  - rewrite app_nil, app_cons. cbn [split]. by rewrite Ascii.eqb_refl.
  - rewrite app_cons. cbn [split]. cbn [dots] in Hp.
    destruct (Ascii.eqb c "."); [done|]. by rewrite IH.
Qed.

Lemma split_last (p : string) : dots p = 0%nat → split "." p = [p].
Proof.
  induction p as [|c p IH]; intros Hp; [done|]. cbn [split]. cbn [dots] in Hp.
  destruct (Ascii.eqb c "."); [done|]. by rewrite IH.
Qed.

Lemma dots_app (a b : string) : dots (a +:+ b) = (dots a + dots b)%nat.
Proof.
  induction a as [|c a IH]; [done|]. rewrite app_cons. cbn [dots]. rewrite IH. lia.
Qed.

(** X17. [anonymizeIP] rewrites the addresses with exactly three dots,
    and only those: of "a.b.c.d" it keeps "a.b.c" and puts "xxx" for
    what follows the last dot.  Every other address, an IPv6 address
    written with colons among them, is returned in full. *)
Theorem anonymizeIP_masks_dotted_quads_only (ip : string) :
  (dots ip ≠ 3%nat → anonymizeIP ip = ip) ∧
  (∀ p0 p1 p2 p3,
     dots p0 = 0%nat → dots p1 = 0%nat → dots p2 = 0%nat → dots p3 = 0%nat →
     ip = p0 +:+ "." +:+ p1 +:+ "." +:+ p2 +:+ "." +:+ p3 →
     anonymizeIP ip = p0 +:+ "." +:+ p1 +:+ "." +:+ p2 +:+ ".xxx").
Proof.
  split.
  - intros Hdots. unfold anonymizeIP. destruct (String.eqb ip "unknown"); [done|].
    pose proof (split_length ip) as Hlen.
    destruct (split "." ip) as [|a [|b [|c [|d [|e rest]]]]]; try done.
    cbn [length] in Hlen. lia.
  - intros p0 p1 p2 p3 H0 H1 H2 H3 ->. unfold anonymizeIP.
    destruct (String.eqb _ "unknown") eqn:Hunknown.
    { apply String.eqb_eq in Hunknown. apply (f_equal dots) in Hunknown.
      rewrite !dots_app in Hunknown. cbn in Hunknown. lia. }
    by rewrite !split_part, split_last.
Qed.

Lemma anonymizeIP_masks_dotted_quads_only_witness :
  anonymizeIP "2001:db8::ff00:42:8329" = "2001:db8::ff00:42:8329" ∧
  anonymizeIP "203.0.113.7" = "203.0.113.xxx".
Proof.
  split.
  - apply (anonymizeIP_masks_dotted_quads_only "2001:db8::ff00:42:8329"). by vm_compute.
  - destruct (anonymizeIP_masks_dotted_quads_only "203.0.113.7") as [_ Hquad].
    apply (Hquad "203" "0" "113" "7"); reflexivity.
Defined.

(** X18. The session identifier is made once: when the identifier that
    [generateId] hands out is not empty, [getSessionId] returns a
    non-empty identifier and every later call returns the same one and
    changes nothing, so that all entries logged in one browser session
    carry one identifier. *)
Theorem session_id_is_stable (fresh later : string) (b : Browser) :
  fresh ≠ "" →
  (getSessionId fresh b).1 ≠ "" ∧
  getSessionId later (getSessionId fresh b).2 = getSessionId fresh b.
Proof.
  intros Hfresh. unfold getSessionId.
  destruct (sessionStorage b !! "ns-cookie-session-id") as [sessionId|] eqn:Hid.
  - destruct (String.eqb sessionId "") eqn:E; cbn [negb fst snd].
    + split; [done|]. cbn [sessionStorage]. rewrite lookup_insert_eq.
      apply String.eqb_neq in Hfresh. by rewrite Hfresh.
    + apply String.eqb_neq in E. split; [done|].
      rewrite Hid. apply String.eqb_neq in E. by rewrite E.
  - cbn [fst snd sessionStorage]. split; [done|]. rewrite lookup_insert_eq.
    apply String.eqb_neq in Hfresh. by rewrite Hfresh.
Qed.

Lemma session_id_is_stable_witness :
  let b := {| localStorage := ∅; sessionStorage := ∅; indexedDB_logs := [];
              posted := [] |} in
  getSessionId "log_2_b" (getSessionId "log_1_a" b).2 = getSessionId "log_1_a" b.
Proof.
  intros b. apply (session_id_is_stable "log_1_a" "log_2_b" b). discriminate.
Defined.

Section Json.
Variable JSON_parse : string → option value.
Variable JSON_stringify : value → string.

(** The entry that [logConsent] builds. *)
Definition log_entry (cfg : ConsentLoggerConfig) (env : Environment) (action : string)
    (consentData : value) (sessionId : string) : value :=
  let ipAddress := getIPAddress (ip_answer env) in
  VObj [("id", VStr (fresh_log_id env)); ("timestamp", num (now env));
        ("action", VStr action); ("consentData", consentData);
        ("userAgent", VStr (userAgent env));
        ("ipAddress",
         if anonymizeData cfg
         then match ipAddress with VStr ip => VStr (anonymizeIP ip) | _ => ipAddress end
         else ipAddress);
        ("referrer", VStr (referrer env)); ("pageUrl", VStr (href env));
        ("sessionId", VStr sessionId); ("version", VStr "1.0.0")].

Definition web_storage (cfg : ConsentLoggerConfig) : bool :=
  match storageType cfg with
  | in_localStorage | in_sessionStorage => true
  | _ => false
  end.

Lemma getLogs_after_session (cfg : ConsentLoggerConfig) (fresh : string) (b : Browser) :
  getConsentLogs JSON_parse cfg (getSessionId fresh b).2 = getConsentLogs JSON_parse cfg b.
Proof.
  unfold getConsentLogs, getSessionId, getLogsFromStorage.
  destruct (storageType cfg); try done;
    destruct (sessionStorage b !! "ns-cookie-session-id") as [sessionId|]; try done;
    try destruct (negb (String.eqb sessionId "")); try done;
    cbn [snd sessionStorage localStorage]; by rewrite lookup_insert_ne.
Qed.

Lemma getLogs_after_store (cfg : ConsentLoggerConfig) (entry : value) (b : Browser)
    (logs : list value) :
  web_storage cfg = true →
  getConsentLogs JSON_parse cfg b = VArr logs →
  JSON_stringify (VArr (logs ++ [entry])) ≠ "" →
  JSON_parse (JSON_stringify (VArr (logs ++ [entry]))) = Some (VArr (logs ++ [entry])) →
  getConsentLogs JSON_parse cfg (storeLogEntry JSON_parse JSON_stringify cfg entry b)
  = VArr (logs ++ [entry]).
Proof.
  intros Hweb Hlogs Hnonempty Hround. unfold web_storage in Hweb.
  unfold getConsentLogs, storeLogEntry in *.
  destruct (storageType cfg); try done;
    cbn [localStorage sessionStorage]; unfold storeInStorage; rewrite Hlogs;
    unfold getLogsFromStorage; rewrite lookup_insert_eq;
    apply String.eqb_neq in Hnonempty; by rewrite Hnonempty, Hround.
Qed.

Lemma getLogs_after_failed_store (cfg : ConsentLoggerConfig) (entry : value)
    (b : Browser) :
  web_storage cfg = true →
  isArray (getConsentLogs JSON_parse cfg b) = false →
  storeLogEntry JSON_parse JSON_stringify cfg entry b = b.
Proof.
  intros Hweb Hlogs. unfold web_storage in Hweb.
  unfold getConsentLogs, storeLogEntry in *.
  destruct (storageType cfg); try done; unfold storeInStorage;
    destruct (getLogsFromStorage _ _); try done; by destruct b.
Qed.

(** X19. With the log kept in [localStorage] or [sessionStorage] and an
    address that is a string (or no anonymising): when what is stored
    reads back as an array, and the new array written as JSON reads back
    as itself, [logConsent] resolves and [getConsentLogs] afterwards
    returns the earlier entries followed by the new entry, which carries
    the action, the consent data and the session identifier.  When what
    is stored reads back as something that is not an array, [logConsent]
    resolves all the same and the entry is dropped: the logs are as
    before. *)
Theorem logConsent_appends_entry (cfg : ConsentLoggerConfig) (env : Environment)
    (action : string) (consentData : value) (b : Browser) :
  enabled cfg = true → web_storage cfg = true →
  (anonymizeData cfg = true → typeof (getIPAddress (ip_answer env)) = TString) →
  let sessionId := (getSessionId (fresh_session_id env) b).1 in
  let entry := log_entry cfg env action consentData sessionId in
  let after := (logConsent JSON_parse JSON_stringify cfg env action consentData b).2 in
  (logConsent JSON_parse JSON_stringify cfg env action consentData b).1 = true ∧
  (∀ logs,
     getConsentLogs JSON_parse cfg b = VArr logs →
     JSON_stringify (VArr (logs ++ [entry])) ≠ "" →
     JSON_parse (JSON_stringify (VArr (logs ++ [entry]))) = Some (VArr (logs ++ [entry])) →
     getConsentLogs JSON_parse cfg after = VArr (logs ++ [entry])) ∧
  (isArray (getConsentLogs JSON_parse cfg b) = false →
   getConsentLogs JSON_parse cfg after = getConsentLogs JSON_parse cfg b).
Proof.
  intros Hon Hweb Hip sessionId entry after.
  unfold after, entry, sessionId, logConsent, log_entry. rewrite Hon. cbn [negb].
  destruct (getSessionId (fresh_session_id env) b) as [sid b1] eqn:Hsession.
  assert (Hb1 : getConsentLogs JSON_parse cfg b1 = getConsentLogs JSON_parse cfg b).
  { replace b1 with (getSessionId (fresh_session_id env) b).2 by by rewrite Hsession.
    apply getLogs_after_session. }
  cbn [fst snd].
  destruct (anonymizeData cfg) eqn:Hanon.
  - specialize (Hip eq_refl).
    destruct (getIPAddress (ip_answer env)) as [| | | |ip| |]; try done.
    cbn [fst snd]. split; [done|]. split.
    + intros logs Hlogs Hne Hround. apply getLogs_after_store; by rewrite ?Hb1.
    + intros Hbad. rewrite getLogs_after_failed_store; by rewrite ?Hb1.
  - cbn [fst snd]. split; [done|]. split.
    + intros logs Hlogs Hne Hround. apply getLogs_after_store; by rewrite ?Hb1.
    + intros Hbad. rewrite getLogs_after_failed_store; by rewrite ?Hb1.
Qed.

End Json.

Lemma logConsent_appends_entry_witness :
  let cfg := create None None None None in
  let env := {| now := 1700000000000; fresh_log_id := "log_1_a";
                fresh_session_id := "log_1_b"; userAgent := "Mozilla/5.0";
                ip_answer := Some (VObj [("ip", VStr "203.0.113.7")]);
                referrer := ""; href := "https://example.org/" |} in
  let b := {| localStorage := ∅; sessionStorage := ∅; indexedDB_logs := [];
              posted := [] |} in
  let entry := log_entry cfg env "accept" (VObj [("essential", VBool true)]) "log_1_b" in
  let parse := fun _ : string => Some (VArr [entry]) in
  let stringify := fun _ : value => "[entry]" in
  getConsentLogs parse cfg
    (logConsent parse stringify cfg env "accept" (VObj [("essential", VBool true)]) b).2
  = VArr [entry] ∧
  get entry "ipAddress" = VStr "203.0.113.xxx".
Proof.
  intros cfg env b entry parse stringify.
  destruct (logConsent_appends_entry parse stringify cfg env "accept"
              (VObj [("essential", VBool true)]) b eq_refl eq_refl (fun _ => eq_refl))
    as (_ & Happend & _).
  split; [|reflexivity].
  apply (Happend []); [reflexivity|discriminate|reflexivity].
Defined.

End ConsentLoggerSpec.

(** ** Consent across reloads and across openings of the modal *)
Module ConsentRoundTrips.
Import JS CookiePlugin JSFacts CookiePluginSpec.














End ConsentRoundTrips.

(** ** The layers of the configuration *)
Module ConfigLayers.
Import JS Utils JSFacts UtilsSpec ValueInduction BackendConfig.

(** The value at the end of a path of property names. *)
Fixpoint leaf_at (v : value) (path : list string) : value :=
  match path with
  | [] => v
  | key :: rest => leaf_at (get v key) rest
  end.

(** A setting: a value that is there and is not an object to descend
    into (a string, a number, a boolean, null or an array). *)
Definition is_setting (x : value) : bool :=
  match x with
  | VUndefined | VObj _ => false
  | _ => true
  end.

(** No object, at any depth, has two properties of the same name. *)
Fixpoint distinct_names (v : value) : bool :=
  match v with
  | VObj props =>
      bool_decide (NoDup props.*1) && forallb (fun entry => distinct_names entry.2) props
  | VArr items => forallb distinct_names items
  | _ => true
  end.

Lemma leaf_at_undefined path : leaf_at VUndefined path = VUndefined.
Proof. induction path as [|key rest IH]; [done|exact IH]. Qed.

Lemma indexed_values (Q : value → Prop) i (l : list value) :
  Forall Q l → Forall (fun entry => Q entry.2) (indexed_from i l).
Proof.
  intros H. revert i. induction H as [|v l Hv Hl IH]; intros i; by constructor.
Qed.

Lemma chars_strings (s : string) : Forall (fun v => distinct_names v = true) (chars s).
Proof. induction s as [|c s IH]; by constructor. Qed.

Lemma assoc_Forall (Q : value → Prop) k (l : list (string * value)) v :
  Forall (fun entry => Q entry.2) l → assoc k l = Some v → Q v.
Proof.
  induction 1 as [|[k' v'] l Hhead Htail IH]; [done|]. cbn [assoc].
  destruct (String.eqb k k'); [by intros [= <-]|exact IH].
Qed.

Lemma distinct_names_values (v : value) :
  distinct_names v = true →
  Forall (fun entry => distinct_names entry.2 = true) (own_props v).
Proof.
  destruct v as [| | | |s|items|props]; cbn [distinct_names own_props]; intros H;
    try by constructor.
  - apply (indexed_values (fun v => distinct_names v = true)), chars_strings.
  - apply (indexed_values (fun v => distinct_names v = true)).
    apply Forall_forall. intros x Hx. rewrite forallb_forall in H.
    apply H. by apply list_elem_of_In.
  - apply andb_prop in H as [_ H]. apply Forall_forall. intros x Hx.
    rewrite forallb_forall in H. apply H. by apply list_elem_of_In.
Qed.

Lemma distinct_names_keys (v : value) :
  distinct_names v = true → NoDup (own_props v).*1.
Proof.
  destruct v as [| | | |s|items|props]; cbn [distinct_names own_props]; intros H;
    try apply NoDup_nil_2; try apply indexed_nodup.
  apply andb_prop in H as [H _]. by apply bool_decide_eq_true_1 in H.
Qed.

Lemma distinct_names_get (v : value) (key : string) :
  distinct_names v = true → distinct_names (get v key) = true.
Proof.
  intros H. unfold get. destruct (assoc key (own_props v)) as [x|] eqn:E; [|done].
  apply (assoc_Forall (fun x => distinct_names x = true) key (own_props v)); [|done].
  by apply distinct_names_values.
Qed.

Lemma distinct_names_or_empty (v : value) :
  distinct_names v = true → distinct_names (or_else v (VObj [])) = true.
Proof.
  intros H. unfold or_else. by destruct (truthy v).
Qed.

Lemma assign_keys_elem x k v (l : list (string * value)) :
  x ∈ (assign k v l).*1 ↔ x = k ∨ x ∈ l.*1.
Proof.
  induction l as [|[k' v'] l IH]; cbn [assign].
  - rewrite fmap_cons, elem_of_cons. cbn. tauto.
  - destruct (String.eqb k k') eqn:E.
    + apply String.eqb_eq in E as <-. rewrite !fmap_cons, !elem_of_cons. cbn. tauto.
    + rewrite !fmap_cons, !elem_of_cons, IH. cbn. tauto.
Qed.

Lemma assign_keys_nodup k v (l : list (string * value)) :
  NoDup l.*1 → NoDup (assign k v l).*1.
Proof.
  induction l as [|[k' v'] l IH]; cbn [assign]; intros H.
  - rewrite fmap_cons. apply NoDup_cons. split; [apply not_elem_of_nil|apply NoDup_nil_2].
  - rewrite fmap_cons in H. apply NoDup_cons in H as [Hhead Htail].
    destruct (String.eqb k k') eqn:E.
    + apply String.eqb_eq in E as <-. rewrite fmap_cons. by apply NoDup_cons.
    + apply String.eqb_neq in E. rewrite fmap_cons. apply NoDup_cons. split; [|auto].
      cbn. rewrite assign_keys_elem. intros [?|?]; [congruence|done].
Qed.

(** What a loop of [deepMerge] keeps: distinct names, and a property of
    the values that holds of what it starts from and of what it writes. *)
Definition kept (Q : value → Prop) (l : list (string * value)) : Prop :=
  NoDup l.*1 ∧ Forall (fun entry => Q entry.2) l.

Lemma merge_key_kept (Q : value → Prop) key sv nested result :
  Q sv → Q nested → kept Q result → kept Q (merge_key key sv nested result).
Proof.
  intros Hsv Hnested [Hnd HQ]. unfold merge_key.
  destruct (_ && _ && _); [split; [by apply assign_keys_nodup|by apply Forall_assign]|].
  destruct (is_defined sv); [|done].
  split; [by apply assign_keys_nodup|by apply Forall_assign].
Qed.

Lemma for_in_kept (Q : value → Prop) (nested : string → value → value) props result :
  Forall (fun entry => Q entry.2 ∧ Q (nested entry.1 entry.2)) props →
  kept Q result →
  kept Q (for_in (fun key sv result => merge_key key sv (nested key sv) result)
                 props result).
Proof.
  intros H. revert result. induction H as [|[key sv] props [Hsv Hn] _ IH];
    intros result Hres; [done|].
  cbn [for_in]. apply IH. by apply merge_key_kept.
Qed.

Lemma for_items_kept (Q : value → Prop) (nested : string → value → value) items i result :
  Forall (fun sv => Q sv ∧ ∀ key, Q (nested key sv)) items →
  kept Q result →
  kept Q (for_items (fun key sv result => merge_key key sv (nested key sv) result)
                    i items result).
Proof.
  intros H. revert i result. induction H as [|sv items [Hsv Hn] _ IH];
    intros i result Hres; [done|].
  cbn [for_items]. apply IH. by apply merge_key_kept.
Qed.

Lemma kept_distinct_names (l : list (string * value)) :
  kept (fun v => distinct_names v = true) l → distinct_names (VObj l) = true.
Proof.
  intros [Hnd HQ]. cbn [distinct_names]. apply andb_true_intro. split.
  - by apply bool_decide_eq_true_2.
  - apply forallb_forall. intros x Hx. rewrite Forall_forall in HQ.
    apply HQ. by apply list_elem_of_In.
Qed.

Lemma own_props_kept (v : value) :
  distinct_names v = true → kept (fun v => distinct_names v = true) (own_props v).
Proof.
  intros H. split; [by apply distinct_names_keys|by apply distinct_names_values].
Qed.

Lemma deepMerge_distinct_names (source : value) :
  ∀ target, distinct_names target = true → distinct_names source = true →
            distinct_names (deepMerge target source) = true.
Proof.
  induction source as [| | | |s|items IH|props IH] using value_induction;
    intros target Ht Hs; try (by apply kept_distinct_names, own_props_kept).
  - apply kept_distinct_names.
    change (kept (fun v => distinct_names v = true)
              (for_in (fun key sv result => merge_key key sv ((fun _ _ => VUndefined) key sv)
                                                      result)
                      (indexed_from 0 (chars s)) (own_props target))).
    apply for_in_kept; [|by apply own_props_kept].
    apply (indexed_values (fun sv => distinct_names sv = true ∧ _)).
    eapply Forall_impl; [apply chars_strings|]. by intros v Hv.
  - apply kept_distinct_names.
    change (kept (fun v => distinct_names v = true)
              (for_items
                 (fun key sv result =>
                    merge_key key sv
                      ((fun key sv => deepMerge (or_else (get target key) (VObj [])) sv)
                         key sv) result)
                 0 items (own_props target))).
    apply for_items_kept; [|by apply own_props_kept].
    cbn [distinct_names] in Hs. rewrite forallb_forall in Hs.
    rewrite Forall_forall in IH. apply Forall_forall. intros sv Hsv.
    assert (Hdn : distinct_names sv = true) by (apply Hs; by apply list_elem_of_In).
    split; [done|]. intros key. apply IH; [done| |done].
    by apply distinct_names_or_empty, distinct_names_get.
  - rewrite deepMerge_object. apply kept_distinct_names.
    apply (for_in_kept (fun v => distinct_names v = true)
             (fun key sv => deepMerge (or_else (get target key) (VObj [])) sv));
      [|by apply own_props_kept].
    pose proof (distinct_names_values (VObj props) Hs) as Hvalues.
    cbn [own_props] in Hvalues.
    rewrite Forall_forall in IH, Hvalues. apply Forall_forall. intros [key sv] Hin.
    specialize (IH _ Hin). specialize (Hvalues _ Hin). cbn [fst snd] in *.
    split; [done|]. apply IH; [|done].
    by apply distinct_names_or_empty, distinct_names_get.
Qed.

Lemma get_deepMerge_object (target : value) (source : list (string * value))
    (key : string) :
  NoDup source.*1 →
  get (deepMerge target (VObj source)) key =
  match get (VObj source) key with
  | VUndefined => get target key
  | VObj _ as sv => deepMerge (or_else (get target key) (VObj [])) sv
  | sv => sv
  end.
Proof.
  intros Hnd. rewrite deepMerge_object. unfold get at 1. cbn [own_props].
  destruct (assoc key source) as [sv|] eqn:Hk.
  - assert (get (VObj source) key = sv) as ->
      by (unfold get; cbn [own_props]; by rewrite Hk).
    rewrite (for_in_visited
               (fun key sv => deepMerge (or_else (get target key) (VObj [])) sv)
               key sv) by done.
    rewrite descends_object. by destruct sv.
  - assert (get (VObj source) key = VUndefined) as ->
      by (unfold get; cbn [own_props]; by rewrite Hk).
    rewrite (for_in_untouched
               (fun key sv => deepMerge (or_else (get target key) (VObj [])) sv)).
    + done.
    + by apply assoc_None_notin.
Qed.

Lemma deepMerge_leaf (path : list string) :
  ∀ target source,
    distinct_names (VObj source) = true →
    is_setting (leaf_at (VObj source) path) = true →
    leaf_at (deepMerge target (VObj source)) path = leaf_at (VObj source) path.
Proof.
  induction path as [|key rest IH]; intros target source Hdn Hleaf; [done|].
  cbn [leaf_at] in *.
  rewrite get_deepMerge_object by by apply (distinct_names_keys (VObj source)).
  pose proof (distinct_names_get (VObj source) key Hdn) as Hsub.
  destruct (get (VObj source) key) as [| | | | | |inner] eqn:Hget; try done.
  - by rewrite leaf_at_undefined in Hleaf.
  - by apply IH.
Qed.

Lemma user_setting_kept (backendConfig : value)
    (userConfig : list (string * value)) (path : list string) :
  distinct_names backendConfig = true →
  distinct_names (VObj userConfig) = true →
  is_setting (leaf_at (VObj userConfig) path) = true →
  leaf_at (mergeConfig backendConfig (VObj userConfig)) path
  = leaf_at (VObj userConfig) path.
Proof.
  intros Hb Hu Hleaf. unfold mergeConfig.
  assert (Hinner : distinct_names (deepMerge backendConfig (VObj userConfig)) = true)
    by by apply deepMerge_distinct_names.
  assert (Hobj : ∃ merged, deepMerge backendConfig (VObj userConfig) = VObj merged)
    by (rewrite deepMerge_object; by eexists).
  destruct Hobj as [merged Hmerged].
  rewrite <- (deepMerge_leaf path backendConfig userConfig Hu Hleaf) in Hleaf |- *.
  rewrite Hmerged in *. by apply deepMerge_leaf.
Qed.

(** X22. The user's layer has the last word.  When no object of the
    backend's and of the user's configuration has two properties of one
    name, every setting of the user's configuration (a string, number,
    boolean, null or array, at any depth) is the setting of the merged
    configuration, whatever the backend and the defaults say; and the
    merged configuration has no two properties of one name either. *)
Theorem mergeConfig_user_setting_wins (backendConfig : value)
    (userConfig : list (string * value)) (path : list string) :
  distinct_names backendConfig = true →
  distinct_names (VObj userConfig) = true →
  (is_setting (leaf_at (VObj userConfig) path) = true →
   leaf_at (mergeConfig backendConfig (VObj userConfig)) path
   = leaf_at (VObj userConfig) path) ∧
  distinct_names (mergeConfig backendConfig (VObj userConfig)) = true.
Proof.
  intros Hb Hu. split.
  - by apply user_setting_kept.
  - unfold mergeConfig. apply deepMerge_distinct_names; [by vm_compute|].
    by apply deepMerge_distinct_names.
Qed.

Lemma mergeConfig_user_setting_wins_witness :
  let backendConfig :=
    VObj [("theme", VStr "light");
          ("ui", VObj [("primaryColor", VStr "#00ff00"); ("fontSize", VStr "16px")])] in
  let userConfig := [("ui", VObj [("primaryColor", VStr "#ff0000")])] in
  leaf_at (mergeConfig backendConfig (VObj userConfig)) ["ui"; "primaryColor"]
  = VStr "#ff0000".
Proof.
  intros backendConfig userConfig.
  apply (mergeConfig_user_setting_wins backendConfig userConfig ["ui"; "primaryColor"]);
    by vm_compute.
Defined.

End ConfigLayers.

(** ** Refreshing the configuration *)
Module RefreshSpec.
Import JS Utils BackendConfig ConfigLayers.
Import CookiePluginWithBackend.

(** The answer of the network, when it has a body, has no object with
    two properties of one name. *)
Definition well_formed_answer (net : FetchResult) : Prop :=
  ∀ ok body, net = fetch_response ok (Some body) → distinct_names body = true.

Lemma refreshConfig_cases (inst : Instance) (now : Z) (net : FetchResult) (now' : Z) :
  well_formed_answer net →
  config (refreshConfig inst now net now').2 = config inst ∨
  ∃ backendConfig,
    distinct_names backendConfig = true ∧
    config (refreshConfig inst now net now').2 = mergeConfig backendConfig (config inst).
Proof.
  intros Hnet. unfold refreshConfig, loadBackendConfig.
  cbn [configCache backendOptions fetched].
  destruct net as [|[|] [body|]]; cbn [snd widget config fetched]; try by left.
  assert (Hbody : distinct_names body = true) by by eapply Hnet.
  destruct body as [| | | | | |]; cbn [snd widget config fetched]; try (by left);
    (destruct (negb (truthy (get _ "success")) || negb (truthy (get _ "data")));
     cbn [snd widget config fetched];
     [by left|right; eexists; split; [|reflexivity]; by apply distinct_names_get]).
Qed.

(** X23. A refresh cannot change a setting the configuration has.
    [refreshConfig] merges the current configuration in as the user's
    layer: whatever the backend answers, and also when the request fails,
    every setting of the current configuration is the setting of the
    configuration afterwards.  For the same reason [setLanguage] leaves
    every text the configuration already has as it is. *)
Theorem refresh_keeps_current_settings (inst : Instance)
    (current : list (string * value)) (now : Z) (net : FetchResult) (now' : Z)
    (path : list string) (lang : string) :
  config inst = VObj current →
  distinct_names (VObj current) = true →
  well_formed_answer net →
  is_setting (leaf_at (config inst) path) = true →
  leaf_at (config (refreshConfig inst now net now').2) path = leaf_at (config inst) path ∧
  leaf_at (config (setLanguage lang inst now net now').2) path
  = leaf_at (config inst) path.
Proof.
  intros Hcfg Hdn Hnet Hleaf.
  assert (Hkeep : ∀ inst0, config inst0 = config inst →
            leaf_at (config (refreshConfig inst0 now net now').2) path
            = leaf_at (config inst) path).
  { intros inst0 H0.
    destruct (refreshConfig_cases inst0 now net now' Hnet)
      as [Hsame|(backendConfig & Hb & Hmerged)].
    - by rewrite Hsame, H0.
    - rewrite Hmerged, H0, Hcfg. rewrite Hcfg in Hleaf.
      by apply user_setting_kept. }
  split; by apply Hkeep.
Qed.

Lemma refresh_keeps_current_settings_witness :
  let current := [("texts", VObj [("title", VStr "Cookie Consent")])] in
  let inst :=
    {| widget := {| backendOptions := default_options "https://example.org/api" None;
                    configCache := None; fetched := [] |};
       config := VObj current |} in
  let net :=
    fetch_response true
      (Some (VObj [("success", VBool true);
                   ("data", VObj [("texts",
                                   VObj [("title", VStr "Cookie-Einstellungen")])])])) in
  leaf_at (config (setLanguage "de" inst 0 net 10).2) ["texts"; "title"]
  = VStr "Cookie Consent".
Proof.
  intros current inst net.
  assert (Hnet : well_formed_answer net).
  { intros ok body [= _ <-]. by vm_compute. }
  apply (refresh_keeps_current_settings inst current 0 net 10 ["texts"; "title"] "de"
           eq_refl ltac:(by vm_compute) Hnet eq_refl).
Defined.

End RefreshSpec.

(** ** What validation lets through *)
Module ValidationSpec.
Import JS Validation JSFacts.

Section Fields.
Context {S : Type}.
Variable parse_field : S → list string → value → list Issue * value.

Lemma parse_fields_keys path v (shape : list (string * S)) key :
  key ∈ (parse_fields parse_field path v shape).2.*1 → key ∈ shape.*1.
Proof.
  induction shape as [|[key' field'] shape IH]; cbn [parse_fields]; [done|].
  destruct (parse_field field' (path ++ [key']) (get v key')) as [issues x'].
  destruct (parse_fields parse_field path v shape) as [issues' rest'].
  cbn [snd] in *. rewrite fmap_cons. cbn [fst].
  destruct (is_defined x'); [rewrite fmap_cons; cbn [fst]|];
    rewrite ?elem_of_cons; intros H; [destruct H as [H|H]|]; auto.
Qed.

Lemma parse_fields_field path v (shape : list (string * S)) props key field :
  NoDup shape.*1 →
  parse_fields parse_field path v shape = ([], props) →
  (key, field) ∈ shape →
  ∃ x, parse_field field (path ++ [key]) (get v key) = ([], x) ∧
       get (VObj props) key = x.
Proof.
  revert props. induction shape as [|[key' field'] shape IH]; intros props Hnd Hp Hin;
    [by inversion Hin|].
  rewrite fmap_cons in Hnd. apply NoDup_cons in Hnd as [Hfresh Hnd]. cbn [fst] in Hfresh.
  cbn [parse_fields] in Hp.
  destruct (parse_field field' (path ++ [key']) (get v key')) as [issues x'] eqn:Hhead.
  pose proof (parse_fields_keys path v shape) as Hkeys.
  destruct (parse_fields parse_field path v shape) as [issues' rest'] eqn:Htail.
  cbn [snd] in Hkeys. injection Hp as Hissues Hprops.
  apply app_eq_nil in Hissues as [-> ->].
  apply elem_of_cons in Hin as [Heq|Hin].
  - injection Heq as -> ->. exists x'. split; [done|].
    subst props. unfold get. cbn [own_props].
    destruct (is_defined x') eqn:Hdef.
    + cbn [assoc]. by rewrite String.eqb_refl.
    + destruct (assoc key' rest') as [y|] eqn:Hy; [|by destruct x'].
      exfalso. apply Hfresh, Hkeys.
      destruct (decide (key' ∈ rest'.*1)) as [|Hnot]; [done|].
      exfalso. clear -Hy Hnot. induction rest' as [|[k0 v0] rest' IH]; [done|].
      cbn [assoc] in Hy. rewrite fmap_cons in Hnot.
      apply not_elem_of_cons in Hnot as [Hne Hnot]. cbn [fst] in Hne.
      apply String.eqb_neq in Hne. rewrite Hne in Hy. by apply IH.
  - destruct (IH rest' Hnd eq_refl Hin) as (x & Hx & Hget).
    exists x. split; [done|]. subst props.
    assert (Hne : key ≠ key').
    { intros ->. apply Hfresh. by apply (list_elem_of_fmap_2 fst _ (key', field)). }
    destruct (is_defined x'); [|done].
    unfold get in *. cbn [own_props assoc] in *.
    apply String.eqb_neq in Hne. by rewrite Hne.
Qed.

End Fields.

Lemma parse_object path v shape out :
  parse (z_object shape) path v = ([], out) →
  ∃ props, out = VObj props ∧ parse_fields parse path v shape = ([], props).
Proof.
  cbn [parse]. destruct v; try done.
  destruct (parse_fields parse path (VObj props) shape) as [issues props'].
  intros [= -> <-]. by exists props'.
Qed.

Lemma parse_regex path test v out :
  parse (z_string [sregex test]) path v = ([], out) →
  ∃ s, v = VStr s ∧ out = VStr s ∧ test s = true.
Proof.
  cbn. destruct v as [| | | |s| |]; try done.
  destruct (test s) eqn:Ht; [|done]. intros [= <-]. by exists s.
Qed.

Lemma parse_default_regex path test d v out :
  test d = true →
  parse (z_default (z_string [sregex test]) (VStr d)) path v = ([], out) →
  ∃ s, out = VStr s ∧ test s = true ∧ (v = VUndefined → s = d).
Proof.
  intros Hd. cbn. destruct v as [| | | |s| |]; try done.
  - rewrite Hd. intros [= <-]. by exists d.
  - destruct (test s) eqn:Ht; [|done]. intros [= <-]. by exists s.
Qed.

Lemma parse_default_boolean path d v out :
  parse (z_default z_boolean (VBool d)) path v = ([], out) →
  ∃ b, out = VBool b ∧ (v = VUndefined → b = d).
Proof.
  cbn. destruct v as [| |b| | | |]; try done.
  - intros [= <-]. by exists d.
  - intros [= <-]. by exists b.
Qed.

Definition config_keys : list string :=
  ["language"; "country"; "region"; "texts"; "categories"; "ui"; "cookieSettings";
   "enabled"; "version"].

(** X24. What [validateConfig] accepts, it returns in the shape of the
    schema: the data has no property outside the nine fields of the
    schema (whatever else the body carried is dropped); its language is
    the one sent and has the form "xx" or "xx-yy" in lower case; its
    primary colour is "#" and six hexadecimal digits, and is "#007bff"
    when the body gave none; its enabled flag is a boolean, true when the
    body gave none. *)
Theorem accepted_config_has_schema_shape (config : value) :
  isValid (validateConfig config) = true →
  let accepted := data (validateConfig config) in
  (∀ key, get accepted key ≠ VUndefined → key ∈ config_keys) ∧
  (∃ l, get accepted "language" = VStr l ∧ get config "language" = VStr l ∧
        re_language l = true) ∧
  (∃ c, get (get accepted "ui") "primaryColor" = VStr c ∧ re_hex_color c = true ∧
        (get (get config "ui") "primaryColor" = VUndefined → c = "#007bff")) ∧
  (∃ b, get accepted "enabled" = VBool b ∧
        (get config "enabled" = VUndefined → b = true)).
Proof.
  unfold validateConfig.
  destruct (parse cookieConfigSchema [] config) as [issues out] eqn:Hp.
  destruct issues as [|i issues]; [|done]. intros _. cbn [data].
  unfold cookieConfigSchema in Hp.
  apply parse_object in Hp as (props & -> & Hfields).
  set (shape := [("language", z_string [sregex re_language]);
                 ("country", z_optional (z_string [sregex re_country]));
                 ("region", z_optional (z_string [strim]));
                 ("texts", textConfigSchema);
                 ("categories",
                  z_object
                    [("essential", cookieCategorySchema);
                     ("analytics", cookieCategorySchema);
                     ("marketing", cookieCategorySchema);
                     ("preferences", cookieCategorySchema)]);
                 ("ui", uiConfigSchema);
                 ("cookieSettings", cookieSettingsSchema);
                 ("enabled", z_default z_boolean (VBool true));
                 ("version", z_default (z_string []) (VStr "1.0.0"))]) in Hfields.
  assert (Hnd : NoDup shape.*1) by (apply (bool_decide_unpack _); vm_compute; exact I).
  split; [|split; [|split]].
  - intros key Hkey.
    pose proof (parse_fields_keys parse [] config shape key) as Hkeys.
    rewrite Hfields in Hkeys. apply Hkeys.
    unfold get in Hkey. cbn [own_props] in Hkey.
    destruct (assoc key props) as [x|] eqn:Hx; [|done].
    destruct (decide (key ∈ props.*1)) as [|Hnot]; [done|].
    exfalso. clear -Hx Hnot. induction props as [|[k0 v0] props IH]; [done|].
    cbn [assoc] in Hx. rewrite fmap_cons in Hnot.
    apply not_elem_of_cons in Hnot as [Hne Hnot]. cbn [fst] in Hne.
    apply String.eqb_neq in Hne. rewrite Hne in Hx. by apply IH.
  - destruct (parse_fields_field parse [] config shape props "language"
                (z_string [sregex re_language]) Hnd Hfields) as (x & Hx & Hget).
    { apply (list_elem_of_lookup_2 _ 0%nat). reflexivity. }
    apply parse_regex in Hx as (l & Hconfig & -> & Hl). by exists l.
  - destruct (parse_fields_field parse [] config shape props "ui" uiConfigSchema
                Hnd Hfields) as (ui & Hui & Hget).
    { apply (list_elem_of_lookup_2 _ 5%nat). reflexivity. }
    rewrite Hget. unfold uiConfigSchema in Hui.
    apply parse_object in Hui as (uiprops & -> & Huifields).
    match type of Huifields with
    | parse_fields _ _ _ ?s = _ => set (uishape := s) in Huifields
    end.
    assert (Hnd' : NoDup uishape.*1)
      by (apply (bool_decide_unpack _); vm_compute; exact I).
    destruct (parse_fields_field parse ([] ++ ["ui"]) (get config "ui") uishape uiprops
                "primaryColor" (z_default (z_string [sregex re_hex_color]) (VStr "#007bff"))
                Hnd' Huifields) as (x & Hx & Hcolor).
    { apply (list_elem_of_lookup_2 _ 0%nat). reflexivity. }
    apply parse_default_regex in Hx as (c & -> & Hc & Hdefault); [|by vm_compute].
    by exists c.
  - destruct (parse_fields_field parse [] config shape props "enabled"
                (z_default z_boolean (VBool true)) Hnd Hfields) as (x & Hx & Hget).
    { apply (list_elem_of_lookup_2 _ 7%nat). reflexivity. }
    apply parse_default_boolean in Hx as (b & -> & Hb). by exists b.
Qed.

Lemma accepted_config_has_schema_shape_witness :
  let config :=
    VObj (own_props (ControllersSpec.a_config "en" VUndefined VUndefined)
          ++ [("createdBy", VStr "someone-else")]) in
  get (data (validateConfig config)) "createdBy" = VUndefined ∧
  get (get (data (validateConfig config)) "ui") "primaryColor" = VStr "#007bff".
Proof.
  intros config.
  destruct (accepted_config_has_schema_shape config ltac:(by vm_compute))
    as (Hkeys & _ & (c & Hc & _ & Hdefault) & _).
  split.
  - destruct (get (data (validateConfig config)) "createdBy") eqn:E; try done;
      exfalso; (assert (Hin : "createdBy" ∈ config_keys)
                  by (apply Hkeys; rewrite E; discriminate));
      unfold config_keys in Hin;
      repeat (apply elem_of_cons in Hin as [Hin|Hin]; [discriminate Hin|]);
      by apply elem_of_nil in Hin.
  - rewrite Hc, (Hdefault eq_refl). reflexivity.
Defined.

End ValidationSpec.

(** ** [objectUtils.deepMerge] *)
Module ObjectUtilsSpec.
Import JS JSFacts UtilsSpec ModernUtils.

Definition overwrite (props acc : list (string * value)) : list (string * value) :=
  fold_left (fun result '(key, v) => assign key v result) props acc.

Lemma merge_loop_none (props : list (string * value)) :
  fold_left
    (fun acc '(key, v) =>
       match acc with
       | None => None
       | Some result =>
           if truthy v && type_tag_eqb (typeof v) TObject && negb (isArray v)
           then None
           else Some (assign key v result)
       end) props None = None.
Proof. induction props as [|[key v] props IH]; [done|exact IH]. Qed.

Lemma merge_loop_some (props acc : list (string * value)) :
  fold_left
    (fun acc '(key, v) =>
       match acc with
       | None => None
       | Some result =>
           if truthy v && type_tag_eqb (typeof v) TObject && negb (isArray v)
           then None
           else Some (assign key v result)
       end) props (Some acc)
  = if existsb (fun entry => descends entry.2) props then None
    else Some (overwrite props acc).
Proof.
  revert acc. induction props as [|[key v] props IH]; intros acc; [done|].
  cbn [fold_left existsb snd]. fold (descends v).
  destruct (descends v); cbn [orb]; [apply merge_loop_none|apply IH].
Qed.

Lemma overwrite_untouched key props acc :
  key ∉ props.*1 → assoc key (overwrite props acc) = assoc key acc.
Proof.
  revert acc. induction props as [|[k v] props IH]; intros acc Hnot; [done|].
  rewrite fmap_cons in Hnot. apply not_elem_of_cons in Hnot as [Hne Hnot].
  cbn [overwrite fold_left]. fold (overwrite props (assign k v acc)).
  rewrite IH by done. by apply assoc_assign_ne.
Qed.

Lemma overwrite_visited key v props acc :
  NoDup props.*1 → (key, v) ∈ props → assoc key (overwrite props acc) = Some v.
Proof.
  revert acc. induction props as [|[k x] props IH]; intros acc Hnd Hin;
    [by inversion Hin|].
  rewrite fmap_cons in Hnd. apply NoDup_cons in Hnd as [Hfresh Hnd].
  cbn [overwrite fold_left]. fold (overwrite props (assign k x acc)).
  apply elem_of_cons in Hin as [[= -> ->]|Hin].
  - rewrite overwrite_untouched by done. apply assoc_assign_eq.
  - by apply IH.
Qed.

(** X25. [objectUtils.deepMerge] does not merge in depth.  As soon as
    the source has a property whose value is an object that is not an
    array, the call throws: inside the arrow function [this] is not the
    utilities object, so the recursive call has nothing to call.  With no
    such property it returns the target overwritten by the properties of
    the source, those whose value is undefined or null among them. *)
Theorem objectUtils_deepMerge_is_shallow (target source : value) :
  (objectUtils_deepMerge target source = None ↔
   ∃ key props, (key, VObj props) ∈ own_props source) ∧
  (∀ result, objectUtils_deepMerge target source = Some result →
     (∀ key, key ∉ (own_props source).*1 → get result key = get target key) ∧
     (∀ key v, NoDup (own_props source).*1 → (key, v) ∈ own_props source →
               get result key = v)).
Proof.
  unfold objectUtils_deepMerge. rewrite merge_loop_some.
  destruct (existsb (fun entry => descends entry.2) (own_props source)) eqn:Hnested.
  - split; [|done]. split; [|done]. intros _.
    apply existsb_exists in Hnested as ([key v] & Hin & Hv).
    rewrite descends_object in Hv. destruct v; try done.
    exists key, props. by apply list_elem_of_In.
  - split.
    + split; [done|]. intros (key & props & Hin). exfalso.
      assert (existsb (fun entry => descends entry.2) (own_props source) = true);
        [|congruence].
      apply existsb_exists. exists (key, VObj props). split; [|done].
      by apply list_elem_of_In.
    + intros result [= <-]. split.
      * intros key Hnot. unfold get. cbn [own_props].
        by rewrite overwrite_untouched.
      * intros key v Hnd Hin. unfold get. cbn [own_props].
        by rewrite (overwrite_visited key v).
Qed.

Lemma objectUtils_deepMerge_is_shallow_witness :
  objectUtils_deepMerge (VObj [("theme", VStr "light")])
                        (VObj [("ui", VObj [("primaryColor", VStr "#ff0000")])]) = None.
Proof.
  apply (objectUtils_deepMerge_is_shallow (VObj [("theme", VStr "light")])
           (VObj [("ui", VObj [("primaryColor", VStr "#ff0000")])])).
  exists "ui", [("primaryColor", VStr "#ff0000")]. apply list_elem_of_here.
Defined.

End ObjectUtilsSpec.
